(** * A shallow embedding of the RAG copilot's ingestion and retrieval core

    The development follows the Python sources module by module:
    [document_processor.py] (cleaner, sentence chunker, metadata tagger),
    [embedder.py] (extractor, batch embedder), [qdrant_utils.py] (vector
    store gateway), [generator.py] (synchronous and streamed generation) and
    [backend/main.py] (the upload pipeline and the streamed event tail).

    Part I holds the definitions, Part II the lemmas and theorems. *)

From Stdlib Require Import ZArith NArith List String Ascii Bool Lia.
From Stdlib.Strings Require Import Byte.
From stdpp Require Import base option list gmap strings.
Import ListNotations.

Local Open Scope Z_scope.

(* ===================================================================== *)
(** * Part I: definitions                                                 *)
(* ===================================================================== *)

(** ** Python values shared by all modules *)

(** A Python [str] is a sequence of Unicode code points, a [bytes] object a
    sequence of bytes. *)
Abbreviation char := N (only parsing).
Abbreviation pystr := (list N) (only parsing).
Abbreviation bytes := (list Byte.byte) (only parsing).

(** Python floats are kept abstract: the code only builds the constant [0.0]
    and rounds a score to four digits. *)
Class PyFloat := {
  float : Type;
  float_zero : float;
  round4 : float -> float
}.

(** An embedding vector. *)
Abbreviation vec := (list float) (only parsing).

(** Exceptions the modelled code can meet.  [ServiceError] stands for any
    exception class raised by a remote service that the code does not name. *)
Inductive exn : Type :=
  | ZeroDivisionError
  | IndexError
  | KeyError (key : string)
  | UnicodeDecodeError
  | UnexpectedResponse (status : Z)
  | ServiceError (msg : string).

(** The outcome of a call that may raise. *)
Inductive result (A : Type) : Type :=
  | Ok (a : A)
  | Raise (e : exn).
Arguments Ok {A} a.
Arguments Raise {A} e.

Definition result_bind {A B} (r : result A) (k : A -> result B) : result B :=
  match r with
  | Ok a => k a
  | Raise e => Raise e
  end.

Definition result_map {A B} (f : A -> B) (r : result A) : result B :=
  result_bind r (fun a => Ok (f a)).

(** [[f(x) for x in xs]] where [f] may raise: the first exception wins. *)
Fixpoint result_list {A B} (f : A -> result B) (xs : list A) : result (list B) :=
  match xs with
  | [] => Ok []
  | x :: rest =>
      result_bind (f x) (fun y =>
      result_bind (result_list f rest) (fun ys => Ok (y :: ys)))
  end.

(** Code that talks to a remote service both changes the service's state and
    may raise; what was done before the exception stays done. *)
Definition action (St A : Type) : Type := St -> result A * St.

Definition ret {St A} (a : A) : action St A := fun st => (Ok a, st).

Definition raise {St A} (e : exn) : action St A := fun st => (Raise e, st).

Definition bind {St A B} (c : action St A) (k : A -> action St B)
    : action St B :=
  fun st =>
    match c st with
    | (Ok a, st') => k a st'
    | (Raise e, st') => (Raise e, st')
    end.

(** [try: c  except Exception as e: handler(e)] *)
Definition try_except {St A} (c : action St A) (handler : exn -> action St A)
    : action St A :=
  fun st =>
    match c st with
    | (Ok a, st') => (Ok a, st')
    | (Raise e, st') => handler e st'
    end.

(** Two services side by side: an action on one leaves the other alone. *)
Definition on_fst {S1 S2 A} (c : action S1 A) : action (S1 * S2) A :=
  fun st => let '(r, s1) := c (fst st) in (r, (s1, snd st)).

Definition on_snd {S1 S2 A} (c : action S2 A) : action (S1 * S2) A :=
  fun st => let '(r, s2) := c (snd st) in (r, (fst st, s2)).

(** A pure computation that may raise, run as an action. *)
Definition lift_result {St A} (r : result A) : action St A :=
  fun st => (r, st).

Declare Scope action_scope.
Delimit Scope action_scope with action.
Notation "x <- c ;; k" := (bind c (fun x => k))
  (at level 100, c at next level, right associativity) : action_scope.

Module PyStr.

(** Code points of an ASCII literal. *)
Definition lit (s : string) : pystr :=
  List.map N_of_ascii (list_ascii_of_string s).

(** The one-character string of a line feed. *)
Definition newline : pystr := [10%N].

(** [len(s)] as a Python integer. *)
Definition len (s : pystr) : Z := Z.of_nat (length s).

(** [str.isspace] on one code point, which is also what [\s] matches in a
    [str] pattern: the white-space table of the Unicode database. *)
Definition is_space (c : char) : bool :=
  (((9 <=? c) && (c <=? 13)) || ((28 <=? c) && (c <=? 32))
   || (c =? 133) || (c =? 160) || (c =? 5760)
   || ((8192 <=? c) && (c <=? 8202))
   || (c =? 8232) || (c =? 8233) || (c =? 8239) || (c =? 8287)
   || (c =? 12288))%N.

(** The alphanumeric property of the Unicode database for code points
    outside ASCII; it belongs to the Python runtime, not to the repository. *)
Class UnicodeDb := { unicode_isalnum : char -> bool }.

(** [\w] in a [str] pattern: alphanumeric or underscore. *)
Definition is_word `{UnicodeDb} (c : char) : bool :=
  (if c <? 128 then
     ((48 <=? c) && (c <=? 57)) || ((65 <=? c) && (c <=? 90))
     || ((97 <=? c) && (c <=? 122)) || (c =? 95)
   else unicode_isalnum c)%N.

(** [s.strip()]: white space is removed at both ends. *)
Fixpoint dropwhile {A} (p : A -> bool) (l : list A) : list A :=
  match l with
  | [] => []
  | x :: rest => if p x then dropwhile p rest else l
  end.

Definition lstrip (s : pystr) : pystr := dropwhile is_space s.
Definition rstrip (s : pystr) : pystr := rev (dropwhile is_space (rev s)).
Definition strip (s : pystr) : pystr := rstrip (lstrip s).

(** [sep.join(parts)] *)
Fixpoint join (sep : pystr) (parts : list pystr) : pystr :=
  match parts with
  | [] => []
  | [p] => p
  | p :: rest => p ++ sep ++ join sep rest
  end.

(** [len(s.split())]: the number of maximal runs of non-space characters. *)
Fixpoint count_words_go (in_word : bool) (s : pystr) : Z :=
  match s with
  | [] => 0
  | c :: rest =>
      if is_space c then count_words_go false rest
      else (if in_word then 0 else 1) + count_words_go true rest
  end.
Definition count_words (s : pystr) : Z := count_words_go false s.

(** [s.endswith(suffix)] *)
Definition endswith (s suffix : pystr) : bool :=
  bool_decide (drop (length s - length suffix) s = suffix).

(** Truthiness of a string. *)
Definition truthy (s : pystr) : bool :=
  match s with [] => false | _ => true end.

End PyStr.

(** ** document_processor.py *)

Module DocumentProcessor.
Import PyStr.

(** [re.sub(r'\s+', ' ', text)]: every maximal white-space run becomes one
    space.  [in_run] tells whether the previous character was white space. *)
Fixpoint sub_whitespace_runs (in_run : bool) (text : pystr) : pystr :=
  match text with
  | [] => []
  | c :: rest =>
      if is_space c then
        if in_run then sub_whitespace_runs true rest
        else 32%N :: sub_whitespace_runs true rest
      else c :: sub_whitespace_runs false rest
  end.

(** The punctuation of the character class [\.\,\!\?\-\:\;\(\)]. *)
Definition is_kept_punct (c : char) : bool :=
  bool_decide (c ∈ lit ".,!?-:;()").

(** A character survives [re.sub(r'[^\w\s\.\,\!\?\-\:\;\(\)]', '', text)]
    when it is in the negated class's complement. *)
Definition is_allowed `{UnicodeDb} (c : char) : bool :=
  is_word c || is_space c || is_kept_punct c.

Definition clean_text `{UnicodeDb} (text : pystr) : pystr :=
  let text := sub_whitespace_runs false text in
  let text := List.filter is_allowed text in
  strip text.

(** The look-behind class [[.!?]]. *)
Definition is_sentence_end (c : char) : bool :=
  bool_decide (c ∈ lit ".!?").

(** [re.split(r'(?<=[.!?])\s+', text)].  [cur] is the piece being read, in
    reverse; [prev_end] says the previous character is one of [.!?];
    [in_sep] says a separator match is being consumed. *)
Fixpoint split_sentences_go (cur : pystr) (prev_end in_sep : bool)
    (text : pystr) : list pystr :=
  match text with
  | [] => [rev cur]
  | c :: rest =>
      if is_space c then
        if in_sep then split_sentences_go cur false true rest
        else if prev_end then rev cur :: split_sentences_go [] false true rest
        else split_sentences_go (c :: cur) false false rest
      else split_sentences_go (c :: cur) (is_sentence_end c) false rest
  end.

Definition split_sentences (text : pystr) : list pystr :=
  split_sentences_go [] false false text.

(** The inner loop over [reversed(current_chunk)]: sentences are put in
    front of [overlap_sentences] while the running length stays within
    [overlap]; the first one that does not fit ends the loop. *)
Fixpoint overlap_loop (overlap : Z) (reversed_chunk : list pystr)
    (overlap_sentences : list pystr) (overlap_length : Z)
    : list pystr * Z :=
  match reversed_chunk with
  | [] => (overlap_sentences, overlap_length)
  | s :: rest =>
      if overlap_length + len s <=? overlap then
        overlap_loop overlap rest (s :: overlap_sentences)
                     (overlap_length + len s)
      else (overlap_sentences, overlap_length)
  end.

Definition is_empty {A} (l : list A) : bool :=
  match l with [] => true | _ => false end.

(** The loop [for sentence in sentences] with its three variables, and the
    final "add remaining chunk" step. *)
Fixpoint chunk_loop (chunk_size overlap : Z) (sentences : list pystr)
    (chunks : list pystr) (current_chunk : list pystr) (current_length : Z)
    : list pystr :=
  match sentences with
  | [] =>
      if is_empty current_chunk then chunks
      else chunks ++ [join (lit " ") current_chunk]
  | sentence :: rest =>
      let sentence_length := len sentence in
      if (current_length + sentence_length >? chunk_size)
         && negb (is_empty current_chunk)
      then
        let chunks := chunks ++ [join (lit " ") current_chunk] in
        let '(overlap_sentences, overlap_length) :=
          overlap_loop overlap (rev current_chunk) [] 0 in
        chunk_loop chunk_size overlap rest chunks
                   (overlap_sentences ++ [sentence])
                   (overlap_length + sentence_length)
      else
        chunk_loop chunk_size overlap rest chunks
                   (current_chunk ++ [sentence])
                   (current_length + sentence_length)
  end.

Definition chunk_by_sentences (text : pystr) (chunk_size overlap : Z)
    : list pystr :=
  chunk_loop chunk_size overlap (split_sentences text) [] [] 0.

(** The [metadata] dictionary and the chunk dictionary built by
    [create_chunk_with_metadata]; [page_number] is absent when [None]. *)
Record metadata := {
  source : pystr;
  chunk_index : Z;
  length_ : Z;
  page_number : option Z
}.

Record chunk_obj := {
  text : pystr;
  metadata_ : metadata
}.

Definition create_chunk_with_metadata (chunk source_file : pystr)
    (chunk_index : Z) (page_number : option Z) : chunk_obj :=
  {| text := chunk;
     metadata_ := {| source := source_file;
                     chunk_index := chunk_index;
                     length_ := len chunk;
                     page_number := page_number |} |}.

End DocumentProcessor.

(** ** embedder.py *)

Module Embedder.
Import PyStr.

(** The libraries that read the uploaded formats: the UTF-8 decoder,
    [PdfReader] with [page.extract_text()] for each page in order, and
    [Document] with the text of each paragraph in order.  The two flags say
    whether the optional imports succeeded. *)
Class DocumentParsers := {
  decode_utf8 : bytes -> result pystr;
  PDF_SUPPORT : bool;
  pdf_page_texts : bytes -> result (list pystr);
  DOCX_SUPPORT : bool;
  docx_paragraph_texts : bytes -> result (list pystr)
}.

(** The PDF loop: [enumerate(pdf_reader.pages, 1)], empty pages skipped. *)
Fixpoint pdf_loop (page_num : Z) (pages : list pystr)
    (full_text : pystr) (page_texts : list (Z * pystr))
    : pystr * list (Z * pystr) :=
  match pages with
  | [] => (full_text, page_texts)
  | page_text :: rest =>
      if truthy page_text then
        pdf_loop (page_num + 1) rest (full_text ++ page_text ++ newline)
                 (page_texts ++ [(page_num, page_text)])
      else pdf_loop (page_num + 1) rest full_text page_texts
  end.

(** The state of the DOCX loop. *)
Record docx_state := {
  full_text : pystr;
  page_texts : list (Z * pystr);
  current_page : Z;
  current_page_text : pystr;
  word_count : Z
}.

Definition docx_step (st : docx_state) (para_text : pystr) : docx_state :=
  if truthy (strip para_text) then
    let current_page_text := current_page_text st ++ para_text ++ newline in
    let word_count := word_count st + count_words para_text in
    if word_count >=? 500 then
      {| full_text := full_text st ++ current_page_text;
         page_texts := page_texts st ++ [(current_page st, current_page_text)];
         current_page := current_page st + 1;
         current_page_text := [];
         word_count := 0 |}
    else
      {| full_text := full_text st;
         page_texts := page_texts st;
         current_page := current_page st;
         current_page_text := current_page_text;
         word_count := word_count |}
  else st.

Definition docx_finish (st : docx_state) : pystr * list (Z * pystr) :=
  if truthy (current_page_text st) then
    (full_text st ++ current_page_text st,
     page_texts st ++ [(current_page st, current_page_text st)])
  else (full_text st, page_texts st).

Definition extract_text_with_pages `{DocumentParsers}
    (file_bytes : bytes) (file_name : pystr)
    : result (pystr * list (Z * pystr)) :=
  if endswith file_name (lit ".txt") || endswith file_name (lit ".md") then
    result_bind (decode_utf8 file_bytes) (fun text =>
    Ok (text, [(1, text)]))
  else if endswith file_name (lit ".pdf") && PDF_SUPPORT then
    match pdf_page_texts file_bytes with
    | Ok pages => Ok (pdf_loop 1 pages [] [])
    | Raise _ => Ok ([], [])
    end
  else if endswith file_name (lit ".docx") && DOCX_SUPPORT then
    match docx_paragraph_texts file_bytes with
    | Ok paragraphs =>
        Ok (docx_finish
              (fold_left docx_step paragraphs
                 {| full_text := []; page_texts := []; current_page := 1;
                    current_page_text := []; word_count := 0 |}))
    | Raise _ => Ok ([], [])
    end
  else Ok ([], []).

(** Where the scan of [re.split(r'\n{2,}', text)] stands: outside a run of
    line feeds, after a single line feed that is not yet known to start a
    separator, or inside a separator. *)
Inductive newline_run : Type :=
  | NoNewline
  | OneNewline
  | Separator.

(** [re.split(r'\n{2,}', text)]: the text is cut at every maximal run of two
    or more line feeds; a single line feed stays in its paragraph.  [cur] is
    the paragraph being read, in reverse. *)
Fixpoint split_paragraphs_go (cur : pystr) (run : newline_run) (text : pystr)
    : list pystr :=
  match text with
  | [] =>
      match run with
      | OneNewline => [rev (10%N :: cur)]
      | _ => [rev cur]
      end
  | c :: rest =>
      if (c =? 10)%N then
        match run with
        | NoNewline => split_paragraphs_go cur OneNewline rest
        | OneNewline => rev cur :: split_paragraphs_go [] Separator rest
        | Separator => split_paragraphs_go cur Separator rest
        end
      else
        match run with
        | OneNewline => split_paragraphs_go (c :: 10%N :: cur) NoNewline rest
        | _ => split_paragraphs_go (c :: cur) NoNewline rest
        end
  end.

Definition split_paragraphs (text : pystr) : list pystr :=
  split_paragraphs_go [] NoNewline text.

(** [s[i:j]] for [i >= 0] and any [j]: a negative [j] counts from the end,
    and both bounds are clipped to the string. *)
Definition py_slice (s : pystr) (i j : Z) : pystr :=
  let n := len s in
  let i := Z.min i n in
  let j := if j <? 0 then Z.max 0 (j + n) else Z.min j n in
  firstn (Z.to_nat (j - i)) (skipn (Z.to_nat i) s).

(** [range(0, stop, step)] for [stop >= 0]: the indices below [stop] when
    [step] is positive, none when it is negative, and [None] for the
    [ValueError] that a zero step raises. *)
Definition range_from_zero (stop step : Z) : option (list Z) :=
  if step =? 0 then None
  else if step >? 0 then
    Some (List.map (fun k => Z.of_nat k * step)
                   (seq 0 (Z.to_nat ((stop + step - 1) / step))))
  else Some [].

(** The legacy chunker.  [None] stands for the [ValueError] of [range] when
    [chunk_size = overlap] and a paragraph is not blank. *)
Fixpoint chunk_text_loop (chunk_size overlap : Z) (paragraphs : list pystr)
    (chunks : list pystr) : option (list pystr) :=
  match paragraphs with
  | [] => Some chunks
  | para :: rest =>
      let para := strip para in
      if negb (truthy para) then
        chunk_text_loop chunk_size overlap rest chunks
      else
        match range_from_zero (len para) (chunk_size - overlap) with
        | None => None
        | Some indices =>
            chunk_text_loop chunk_size overlap rest
              (chunks
               ++ List.map (fun i => py_slice para i (i + chunk_size)) indices)
        end
  end.

Definition chunk_text (text : pystr) (chunk_size overlap : Z)
    : option (list pystr) :=
  chunk_text_loop chunk_size overlap (split_paragraphs text) [].

(** The embedding endpoint, [openai.Embedding.create(input=..., model=...)]:
    a remote service whose answer to a request can depend on everything it
    was asked before.  [Ok data] carries [[item.embedding for item in
    response.data]]. *)
Class EmbeddingService `{PyFloat} := {
  service : Type;
  embedding_create : list pystr -> action service (list vec)
}.

Section WithService.
Context `{EmbeddingService}.
Local Open Scope action_scope.

Definition get_embedding (text : pystr) : action service vec :=
  data <- embedding_create [text] ;;
  match data with
  | embedding :: _ => ret embedding
  | [] => raise IndexError
  end.

(** [[0.0] * 1536] *)
Definition zero_vector : vec := repeat float_zero 1536.

(** [range(0, stop, step)] for [stop >= 0]: empty when [step] is negative. *)
Definition range_step (stop step : Z) : list Z :=
  if step >? 0 then
    List.map (fun k => Z.of_nat k * step)
             (seq 0 (Z.to_nat ((stop + step - 1) / step)))
  else [].

(** [texts[i:j]] for [0 <= i <= j]. *)
Definition slice {A} (l : list A) (i j : Z) : list A :=
  firstn (Z.to_nat (j - i)) (skipn (Z.to_nat i) l).

(** The fallback [for text in batch] of the [except] branch. *)
Fixpoint fallback_loop (batch : list pystr) (all_embeddings : list vec)
    : action service (list vec) :=
  match batch with
  | [] => ret all_embeddings
  | text :: rest =>
      single_embedding <-
        try_except (get_embedding text) (fun _ => ret zero_vector) ;;
      fallback_loop rest (all_embeddings ++ [single_embedding])
  end.

(** The body of [for batch_idx in range(0, len(texts), batch_size)]. *)
Definition embed_batch (batch : list pystr) (all_embeddings : list vec)
    : action service (list vec) :=
  try_except
    (batch_embeddings <- embedding_create batch ;;
     ret (all_embeddings ++ batch_embeddings))
    (fun _ => fallback_loop batch all_embeddings).

Fixpoint batches_loop (texts : list pystr) (batch_size : Z)
    (indices : list Z) (all_embeddings : list vec)
    : action service (list vec) :=
  match indices with
  | [] => ret all_embeddings
  | batch_idx :: rest =>
      let batch := slice texts batch_idx (batch_idx + batch_size) in
      all_embeddings <- embed_batch batch all_embeddings ;;
      batches_loop texts batch_size rest all_embeddings
  end.

Definition get_embeddings_batch (texts : list pystr) (batch_size : Z)
    : action service (list vec) :=
  if batch_size =? 0 then raise ZeroDivisionError
  else batches_loop texts batch_size
         (range_step (Z.of_nat (length texts)) batch_size) [].

End WithService.
End Embedder.

(** ** qdrant_utils.py *)

Module QdrantUtils.
Import PyStr DocumentProcessor.

(** The values a payload holds. *)
Inductive pyval : Type :=
  | PStr (s : pystr)
  | PInt (z : Z)
  | PNone.

Abbreviation payload_dict := (gmap string pyval) (only parsing).

Section WithFloat.
Context `{PyFloat}.

Record PointStruct := {
  id : nat;
  vector : vec;
  payload : payload_dict
}.

(** A hit returned by the store's search. *)
Record ScoredPoint := {
  hit_id : nat;
  score : float;
  hit_payload : payload_dict
}.

(** A collection: its dimensionality and its records by id. *)
Record collection := {
  vector_size : Z;
  points : gmap nat (vec * payload_dict)
}.

(** The ranking of the similarity engine (top [limit] by cosine score). *)
Class SimilarityEngine := {
  cosine_search : collection -> vec -> Z -> result (list ScoredPoint)
}.

(** *** The vector store behind [QdrantClient]

    The store is an external service; its state is the set of named
    collections.  Its contract: a request on a collection that does not
    exist is answered 404, which the client raises as [UnexpectedResponse];
    creating a collection that exists is refused; an upsert writes each
    record under its id, replacing what the id held; vectors must have the
    collection's dimensionality. *)
Abbreviation store := (gmap string collection) (only parsing).

Definition client_get_collection (collection_name : string)
    : action store collection :=
  fun st =>
    match st !! collection_name with
    | Some c => (Ok c, st)
    | None => (Raise (UnexpectedResponse 404), st)
    end.

Definition client_delete_collection (collection_name : string)
    : action store unit :=
  fun st => (Ok tt, delete collection_name st).

Definition client_create_collection (collection_name : string) (size : Z)
    : action store unit :=
  fun st =>
    match st !! collection_name with
    | Some _ => (Raise (UnexpectedResponse 409), st)
    | None =>
        (Ok tt, <[collection_name := {| vector_size := size; points := ∅ |}]> st)
    end.

Definition has_size (size : Z) (v : vec) : bool :=
  Z.of_nat (length v) =? size.

Definition upsert_point (pts : gmap nat (vec * payload_dict)) (p : PointStruct)
    : gmap nat (vec * payload_dict) :=
  <[id p := (vector p, payload p)]> pts.

Definition client_upsert (collection_name : string) (batch : list PointStruct)
    : action store unit :=
  fun st =>
    match st !! collection_name with
    | None => (Raise (UnexpectedResponse 404), st)
    | Some c =>
        if forallb (fun p => has_size (vector_size c) (vector p)) batch then
          (Ok tt,
           <[collection_name :=
               {| vector_size := vector_size c;
                  points := fold_left upsert_point batch (points c) |}]> st)
        else (Raise (UnexpectedResponse 400), st)
    end.

Definition client_search `{SimilarityEngine} (collection_name : string)
    (query_vector : vec) (limit : Z) : action store (list ScoredPoint) :=
  fun st =>
    match st !! collection_name with
    | None => (Raise (UnexpectedResponse 404), st)
    | Some c =>
        if has_size (vector_size c) query_vector then
          (cosine_search c query_vector limit, st)
        else (Raise (UnexpectedResponse 400), st)
    end.

(** *** The gateway functions of the repository *)

Local Open Scope action_scope.

Definition collection_exists (collection_name : string) : action store bool :=
  try_except
    (_ <- client_get_collection collection_name ;; ret true)
    (fun e =>
       match e with
       | UnexpectedResponse _ => ret false
       | _ => raise e
       end).

Definition create_collection (collection_name : string) (vector_size : Z)
    : action store unit :=
  found <- collection_exists collection_name ;;
  _ <- (if found then client_delete_collection collection_name else ret tt) ;;
  client_create_collection collection_name vector_size.

(** The legacy upload: one point per document, with the text as its only
    payload, all sent in one upsert. *)
Definition make_text_point (docs : list pystr) (embeddings : list vec)
    (i : nat) : result PointStruct :=
  match embeddings !! i, docs !! i with
  | Some v, Some d =>
      Ok {| id := i; vector := v; payload := <["text" := PStr d]> ∅ |}
  | _, _ => Raise IndexError
  end.

Definition upload_documents (collection_name : string) (docs : list pystr)
    (embeddings : list vec) : action store unit :=
  points <- lift_result (result_list (make_text_point docs embeddings)
                                     (seq 0 (length docs))) ;;
  client_upsert collection_name points.

(** One element of the comprehension that builds [batch_points]. *)
Definition make_point (chunk_objs : list chunk_obj) (embeddings : list vec)
    (i : nat) : result PointStruct :=
  match embeddings !! i, chunk_objs !! i with
  | Some v, Some c =>
      Ok {| id := i;
            vector := v;
            payload :=
              <["text" := PStr (text c)]>
              (<["source" := PStr (source (metadata_ c))]>
              (<["chunk_index" := PInt (chunk_index (metadata_ c))]>
              (<["length" := PInt (length_ (metadata_ c))]> ∅))) |}
  | _, _ => Raise IndexError
  end.

Definition upload_batch_size : nat := 100.

Fixpoint upload_loop (collection_name : string) (chunk_objs : list chunk_obj)
    (embeddings : list vec) (batch_nums : list nat) : action store unit :=
  match batch_nums with
  | [] => ret tt
  | batch_num :: rest =>
      let total_docs := length chunk_objs in
      let start_idx := (batch_num * upload_batch_size)%nat in
      let end_idx := Nat.min ((batch_num + 1) * upload_batch_size) total_docs in
      batch_points <-
        lift_result (result_list (make_point chunk_objs embeddings)
                                 (seq start_idx (end_idx - start_idx))) ;;
      _ <- client_upsert collection_name batch_points ;;
      upload_loop collection_name chunk_objs embeddings rest
  end.

Definition upload_documents_with_metadata (collection_name : string)
    (chunk_objs : list chunk_obj) (embeddings : list vec)
    : action store unit :=
  let total_docs := length chunk_objs in
  let total_batches :=
    ((total_docs + upload_batch_size - 1) / upload_batch_size)%nat in
  upload_loop collection_name chunk_objs embeddings (seq 0 total_batches).

(** The dictionary built for each hit. *)
Record result_data := {
  r_text : pyval;
  r_source : pyval;
  r_chunk_index : pyval;
  r_page_number : pyval;
  r_score : float
}.

(** [d.get(key, default)] *)
Definition dict_get (d : payload_dict) (key : string) (default : pyval)
    : pyval :=
  match d !! key with
  | Some v => v
  | None => default
  end.

Definition format_result (r : ScoredPoint) : result result_data :=
  match hit_payload r !! "text"%string with
  | None => Raise (KeyError "text")
  | Some t =>
      Ok {| r_text := t;
            r_source := dict_get (hit_payload r) "source" (PStr (lit "Unknown"));
            r_chunk_index := dict_get (hit_payload r) "chunk_index" (PInt 0);
            r_page_number := dict_get (hit_payload r) "page_number" PNone;
            r_score := round4 (score r) |}
  end.

Definition search_documents_with_metadata `{SimilarityEngine}
    (collection_name : string) (query_embedding : vec) (top_k : Z)
    : action store (list result_data) :=
  found <- collection_exists collection_name ;;
  if negb found then ret []
  else
    results <- client_search collection_name query_embedding top_k ;;
    lift_result (result_list format_result results).

Definition search_documents `{SimilarityEngine}
    (collection_name : string) (query_embedding : vec) (top_k : Z)
    : action store (list pyval) :=
  results_with_metadata <-
    search_documents_with_metadata collection_name query_embedding top_k ;;
  ret (List.map r_text results_with_metadata).

End WithFloat.
End QdrantUtils.

(** ** generator.py *)

Module Generator.
Import PyStr.

(** [chunk["choices"][0]] of a streamed response: the [delta] dictionary may
    be absent, and so may its [content]. *)
Record delta := {
  role : option pystr;
  content : option pystr
}.

Record stream_chunk := {
  delta_ : option delta
}.

(** The chat endpoint, [openai.ChatCompletion.create], in its two modes.  The
    plain mode answers with [response["choices"][0]["message"]["content"]];
    the streamed mode delivers chunks and may break off with an exception. *)
Class GenerationService := {
  chat_completion : pystr -> result pystr;
  chat_completion_stream : pystr -> list stream_chunk * option exn
}.

Section WithGeneration.
Context `{GenerationService}.

Definition generate_code (context query : pystr) : result pystr :=
  let prompt :=
    lit "Reference:" ++ newline ++ context ++ newline ++ newline
    ++ lit "Instruction:" ++ newline ++ query ++ newline ++ newline
    ++ lit "Generate code as per the reference and instruction." in
  chat_completion prompt.

(** [chunk["choices"][0].get("delta", {}).get("content")] *)
Definition delta_content (chunk : stream_chunk) : option pystr :=
  match delta_ chunk with
  | Some d => content d
  | None => None
  end.

(** What one chunk makes the generator yield, if anything. *)
Definition yielded (chunk : stream_chunk) : option pystr :=
  match delta_content chunk with
  | Some c => if truthy c then Some c else None
  | None => None
  end.

(** The generator, run to its end: what it yields, and the exception that
    ends it if the service breaks off. *)
Definition generate_code_stream (context query : pystr)
    : list pystr * option exn :=
  let prompt :=
    lit "Reference:" ++ newline ++ context ++ newline ++ newline
    ++ lit "Instruction:" ++ newline ++ query ++ newline ++ newline
    ++ lit "Generate code as per the reference and instruction." in
  let '(response, failure) := chat_completion_stream prompt in
  (omap yielded response, failure).

End WithGeneration.
End Generator.

(** ** backend/main.py *)

Module Backend.
Import PyStr DocumentProcessor Embedder QdrantUtils Generator.

Definition COLLECTION_NAME : string := "reference_docs".

(** An uploaded file. *)
Record UploadFile := {
  filename : pystr;
  file_bytes : bytes
}.

(** The dictionary [upload_docs] returns.  The progress trace and the timing
    table hold wall-clock readings and are left out. *)
Inductive upload_response : Type :=
  | UploadError (message : string)
  | UploadSuccess (chunks : Z) (files_processed : Z).

Definition status (r : upload_response) : string :=
  match r with
  | UploadError _ => "error"
  | UploadSuccess _ _ => "success"
  end.

Section WithServices.
Context `{UnicodeDb} `{DocumentParsers} `{EmbeddingService}.
Local Open Scope action_scope.

(** [for page_num, page_text in page_texts] *)
Fixpoint pages_loop (page_texts : list (Z * pystr))
    (page_chunks : list (Z * pystr)) : list (Z * pystr) :=
  match page_texts with
  | [] => page_chunks
  | (page_num, page_text) :: rest =>
      let cleaned_page := clean_text page_text in
      if negb (truthy cleaned_page) then pages_loop rest page_chunks
      else
        let chunks := chunk_by_sentences cleaned_page 500 50 in
        pages_loop rest
          (page_chunks ++ List.map (fun chunk => (page_num, chunk)) chunks)
  end.

(** [for idx, (page_num, chunk) in enumerate(page_chunks)] *)
Fixpoint tag_loop (file_name : pystr) (idx : Z) (page_chunks : list (Z * pystr))
    : list chunk_obj :=
  match page_chunks with
  | [] => []
  | (page_num, chunk) :: rest =>
      create_chunk_with_metadata chunk file_name idx (Some page_num)
      :: tag_loop file_name (idx + 1) rest
  end.

(** The body of [for file_idx, file in enumerate(files, 1)]; a [continue]
    hands the two global lists back unchanged. *)
Definition process_file (file : UploadFile)
    (all_chunk_objs : list chunk_obj) (all_embeddings : list vec)
    : action service (list chunk_obj * list vec) :=
  extracted <- lift_result (extract_text_with_pages (file_bytes file)
                                                    (filename file)) ;;
  let raw_text := fst extracted in
  let page_texts := snd extracted in
  if negb (truthy raw_text) then ret (all_chunk_objs, all_embeddings)
  else
    let page_chunks := pages_loop page_texts [] in
    if is_empty page_chunks then ret (all_chunk_objs, all_embeddings)
    else
      let file_chunk_objs := tag_loop (filename file) 0 page_chunks in
      let chunk_texts := List.map snd page_chunks in
      file_embeddings <- get_embeddings_batch chunk_texts 100 ;;
      ret (all_chunk_objs ++ file_chunk_objs,
           all_embeddings ++ file_embeddings).

Fixpoint files_loop (files : list UploadFile)
    (all_chunk_objs : list chunk_obj) (all_embeddings : list vec)
    : action service (list chunk_obj * list vec) :=
  match files with
  | [] => ret (all_chunk_objs, all_embeddings)
  | file :: rest =>
      acc <- process_file file all_chunk_objs all_embeddings ;;
      files_loop rest (fst acc) (snd acc)
  end.

(** The upload pipeline.  Its state is the embedding service together with
    the vector store. *)
Definition upload_docs (files : list UploadFile)
    : action (service * gmap string collection) upload_response :=
  if is_empty files then ret (UploadError "No files provided")
  else
    acc <- on_fst (files_loop files [] []) ;;
    let all_chunk_objs := fst acc in
    let all_embeddings := snd acc in
    match all_embeddings with
    | [] => ret (UploadError "No valid content found in uploaded files")
    | first_embedding :: _ =>
        _ <- on_snd (create_collection COLLECTION_NAME
                       (Z.of_nat (length first_embedding))) ;;
        _ <- on_snd (upload_documents_with_metadata COLLECTION_NAME
                       all_chunk_objs all_embeddings) ;;
        ret (UploadSuccess (Z.of_nat (length all_chunk_objs))
                           (Z.of_nat (length files)))
    end.

End WithServices.

(** The typed frames of the streamed response that the generation step
    emits. *)
Inductive event : Type :=
  | Status (message : pystr)
  | Code (content : pystr)
  | Done (message : pystr)
  | Error (e : exn).

Section WithGeneration.
Context `{GenerationService}.

(** Step 6 of [event_generator]: the status frame, one [code] frame per
    fragment of [generate_code_stream], then [done]; an exception ends the
    stream with an [error] frame instead. *)
Definition stream_generation_events (context strict_prompt : pystr)
    : list event :=
  let '(fragments, failure) := generate_code_stream context strict_prompt in
  [Status (lit "Generating code with GPT-4...")]
  ++ List.map Code fragments
  ++ match failure with
     | None => [Done (lit "Code generation completed!")]
     | Some e => [Error e]
     end.

(** What a consumer rebuilds from the [code] frames, in arrival order. *)
Definition code_of (ev : event) : option pystr :=
  match ev with
  | Code content => Some content
  | _ => None
  end.

Definition streamed_text (events : list event) : pystr :=
  concat (omap code_of events).

End WithGeneration.
End Backend.

(** ** Notions used to state the properties *)

Module Notions.
Import PyStr DocumentProcessor.

(** The summed length of some sentences, separators not counted. *)
Definition total_len (sentences : list pystr) : Z :=
  fold_right (fun s acc => len s + acc) 0 sentences.

(** The sentences that seed the next chunk when [current_chunk] is closed:
    what the overlap loop leaves in [overlap_sentences]. *)
Definition overlap_of (overlap : Z) (current_chunk : list pystr)
    : list pystr :=
  fst (overlap_loop overlap (rev current_chunk) [] 0).

(** [chunk_loop] before the sentences of each chunk are joined: the sentence
    lists of the chunks still to be emitted. *)
Fixpoint groups_from (chunk_size overlap : Z) (sentences : list pystr)
    (current_chunk : list pystr) (current_length : Z) : list (list pystr) :=
  match sentences with
  | [] => if is_empty current_chunk then [] else [current_chunk]
  | sentence :: rest =>
      let sentence_length := len sentence in
      if (current_length + sentence_length >? chunk_size)
         && negb (is_empty current_chunk)
      then
        let '(overlap_sentences, overlap_length) :=
          overlap_loop overlap (rev current_chunk) [] 0 in
        current_chunk
        :: groups_from chunk_size overlap rest
             (overlap_sentences ++ [sentence])
             (overlap_length + sentence_length)
      else
        groups_from chunk_size overlap rest
          (current_chunk ++ [sentence]) (current_length + sentence_length)
  end.

(** A relation holds between every two neighbours of a list. *)
Fixpoint chain {A} (R : A -> A -> Prop) (l : list A) : Prop :=
  match l with
  | x :: (y :: _) as rest => R x y /\ chain R rest
  | _ => True
  end.

(** Two neighbouring sentence lists inside the sentences of a text: [g1]
    stands in [sentences] and is followed there by [rest], at least one
    sentence, and the later list [g2] is the overlap of [g1] followed by
    [rest]. *)
Definition seeded_by (overlap : Z) (sentences g1 g2 : list pystr) : Prop :=
  exists before rest after,
    sentences = before ++ g1 ++ rest ++ after
    /\ g1 <> [] /\ rest <> []
    /\ g2 = overlap_of overlap g1 ++ rest.

(** The contract of the embedding service: a request that succeeds answers
    with one vector per input text, in input order, each an embedding of its
    text.  What "an embedding of" means is left to the service. *)
Definition service_contract `{Embedder.EmbeddingService}
    (embeds : pystr -> vec -> Prop) : Prop :=
  forall input s data s',
    Embedder.embedding_create input s = (Ok data, s') ->
    Forall2 embeds input data.

(** What the batch embedder may put at the place of a text: an embedding of
    it, or the placeholder. *)
Definition embedding_or_placeholder `{Embedder.EmbeddingService}
    (embeds : pystr -> vec -> Prop) (text : pystr) (v : vec) : Prop :=
  embeds text v \/ v = Embedder.zero_vector.

(** The collection holds under id [i] the record that an upload of
    [chunk_objs] with [embeddings] writes for index [i]. *)
Definition holds_record `{PyFloat}
    (st : gmap string QdrantUtils.collection) (collection_name : string)
    (chunk_objs : list chunk_obj) (embeddings : list vec) (i : nat) : Prop :=
  exists c p,
    st !! collection_name = Some c
    /\ QdrantUtils.make_point chunk_objs embeddings i = Ok p
    /\ QdrantUtils.points c !! i
       = Some (QdrantUtils.vector p, QdrantUtils.payload p).

(** A deterministic generation stub whose two modes agree: on every prompt
    the streamed mode runs to its end, and the plain mode answers with the
    contents of the streamed chunks put together. *)
Definition consistent_stub `{Generator.GenerationService} : Prop :=
  forall prompt,
    snd (Generator.chat_completion_stream prompt) = None
    /\ Generator.chat_completion prompt
       = Ok (concat (omap Generator.delta_content
                          (fst (Generator.chat_completion_stream prompt)))).

(** A file that is not successfully processed: extraction gives no text, or
    its pages give no chunk. *)
Definition yields_nothing `{UnicodeDb} `{Embedder.DocumentParsers}
    (file : Backend.UploadFile) : Prop :=
  exists raw_text page_texts,
    Embedder.extract_text_with_pages (Backend.file_bytes file)
                                     (Backend.filename file)
    = Ok (raw_text, page_texts)
    /\ (raw_text = [] \/ Backend.pages_loop page_texts [] = []).

(** No two white-space characters stand next to each other. *)
Fixpoint single_spaced (s : pystr) : bool :=
  match s with
  | a :: (b :: _) as rest =>
      negb (is_space a && is_space b) && single_spaced rest
  | _ => true
  end.

(** A text as the cleaner is meant to leave it: allowed characters only, no
    white space but the plain space, no two of them in a row, none at either
    end. *)
Definition normalized `{UnicodeDb} (s : pystr) : Prop :=
  Forall (fun c => is_allowed c = true) s
  /\ Forall (fun c => is_space c = true -> c = 32%N) s
  /\ single_spaced s = true
  /\ (forall c rest, s = c :: rest -> is_space c = false)
  /\ (forall front c, s = front ++ [c] -> is_space c = false).

(** [g] is a run of consecutive elements of [l]. *)
Definition run_of {A} (g l : list A) : Prop :=
  exists before after, l = before ++ g ++ after.

(** The soft size bound of a chunk, on its sentence list: the summed
    sentence length is within the chunk size, or the chunk is a seed of
    overlap sentences followed by one single sentence. *)
Definition softly_bounded (chunk_size overlap : Z) (g : list pystr) : Prop :=
  total_len g <= chunk_size
  \/ exists seed s, g = seed ++ [s] /\ total_len seed <= Z.max 0 overlap.

(** The characters of a text that are not white space, in order. *)
Definition visible (s : pystr) : pystr :=
  List.filter (fun c => negb (is_space c)) s.

(** A sentence that ends with one of the marks of the look-behind. *)
Definition ends_with_mark (s : pystr) : Prop :=
  exists body c, s = body ++ [c] /\ is_sentence_end c = true.

(** The non-empty pages of a paginated document with their numbers, counted
    from [n] over all pages. *)
Fixpoint number_pages (n : Z) (pages : list pystr) : list (Z * pystr) :=
  match pages with
  | [] => []
  | page_text :: rest =>
      if truthy page_text then (n, page_text) :: number_pages (n + 1) rest
      else number_pages (n + 1) rest
  end.

(** A paragraph that the DOCX loop keeps: not blank. *)
Definition kept_paragraph (para_text : pystr) : bool :=
  truthy (strip para_text).

(** A text or paragraph followed by a line feed. *)
Definition line (s : pystr) : pystr := s ++ newline.

(** A frame that ends the stream. *)
Definition terminal (ev : Backend.event) : bool :=
  match ev with
  | Backend.Done _ | Backend.Error _ => true
  | _ => false
  end.


End Notions.

(** ** Stand-ins for the external services, used to run the code *)

Module Fixtures.
Import PyStr Embedder QdrantUtils Generator.

(** A Unicode table that knows no alphanumeric outside ASCII. *)
Definition ascii_db : UnicodeDb := {| unicode_isalnum := fun _ => false |}.

(** Vectors of integers stand for vectors of floats. *)
Definition int_float : PyFloat :=
  {| float := Z; float_zero := 0; round4 := fun x => x |}.

(** An embedding service that is down: every request raises. *)
Definition down_service : @EmbeddingService int_float :=
  {| service := unit;
     embedding_create := fun _ => raise (ServiceError "unavailable") |}.

(** An embedding service that answers every text with the vector of 1536
    zeros. *)
Definition zeros_service : @EmbeddingService int_float :=
  {| service := unit;
     embedding_create := fun input =>
       ret (List.map (fun _ => repeat (0 : @float int_float) 1536) input) |}.

(** An embedding service that counts its requests, refuses those with an odd
    number and answers the others with one short vector per text. *)
Definition flaky_service : @EmbeddingService int_float :=
  {| service := nat;
     embedding_create := fun input n =>
       if Nat.even n
       then (Ok (List.map (fun t => [PyStr.len t : @float int_float]) input),
             S n)
       else (Raise (ServiceError "rate limit"), S n) |}.

(** An embedding service that counts its requests and never fails: every
    text is answered with the one-entry vector of its length. *)
Definition counting_service : @EmbeddingService int_float :=
  {| service := nat;
     embedding_create := fun input n =>
       (Ok (List.map (fun t => [PyStr.len t : @float int_float]) input),
        S n) |}.

(** An embedding service that counts its requests and keeps no contract:
    of every three requests the first raises, the second succeeds with no
    vector at all, and the third answers with one short vector per text. *)
Definition erratic_service : @EmbeddingService int_float :=
  {| service := nat;
     embedding_create := fun input n =>
       match (n mod 3)%nat with
       | 0%nat => (Raise (ServiceError "rate limit"), S n)
       | 1%nat => (Ok [], S n)
       | _ => (Ok (List.map (fun t => [PyStr.len t : @float int_float])
                            input),
               S n)
       end |}.

(** Parsers that read ASCII text files and know no other format. *)
Definition text_parsers : DocumentParsers :=
  {| decode_utf8 := fun b => Ok (List.map (fun x => N.of_nat (Byte.to_nat x)) b);
     PDF_SUPPORT := false;
     pdf_page_texts := fun _ => Raise (ServiceError "no PDF support");
     DOCX_SUPPORT := false;
     docx_paragraph_texts := fun _ => Raise (ServiceError "no DOCX support") |}.

(** A similarity engine that returns the stored records by ascending id,
    all with score 1, cut at [limit]. *)
Definition id_order_engine : @SimilarityEngine int_float :=
  {| cosine_search := fun c _ limit =>
       Ok (firstn (Z.to_nat limit)
             (List.map (fun kv => {| hit_id := fst kv;
                                     score := (1 : @float int_float);
                                     hit_payload := snd (snd kv) |})
                       (map_to_list (points c)))) |}.

(** A deterministic generation stub: whatever the prompt, the plain mode
    answers "print(1)" and the streamed mode delivers it in pieces, between a
    role-only first chunk and an empty last one. *)
Definition stub_generation : GenerationService :=
  {| chat_completion := fun _ => Ok (lit "print(1)");
     chat_completion_stream := fun _ =>
       ([ {| delta_ := Some {| role := Some (lit "assistant");
                               content := Some [] |} |};
          {| delta_ := Some {| role := None; content := Some (lit "print") |} |};
          {| delta_ := Some {| role := None; content := Some (lit "(1)") |} |};
          {| delta_ := Some {| role := None; content := None |} |};
          {| delta_ := None |} ], None) |}.

(** Two files without content: a text file of three spaces and a PDF that
    cannot be read. *)
Definition blank_files : list Backend.UploadFile :=
  [ {| Backend.filename := lit "blank.txt";
       Backend.file_bytes := [x20; x20; x20] |};
    {| Backend.filename := lit "scan.pdf";
       Backend.file_bytes := [x25; x50; x44; x46] |} ].

(** Parsers that also read two paginated formats: the bytes of a PDF are
    taken as its pages, one byte each, a zero byte standing for a page without
    text; the bytes of a DOCX are taken as its paragraphs in the same way. *)
Definition byte_page (b : Byte.byte) : list N :=
  if Byte.eqb b x00 then [] else [N.of_nat (Byte.to_nat b)].

Definition paged_parsers : DocumentParsers :=
  {| decode_utf8 := fun b => Ok (List.map (fun x => N.of_nat (Byte.to_nat x)) b);
     PDF_SUPPORT := true;
     pdf_page_texts := fun b => Ok (List.map byte_page b);
     DOCX_SUPPORT := true;
     docx_paragraph_texts := fun b => Ok (List.map byte_page b) |}.

(** A store with one empty collection of one-entry vectors, and two uploads
    of one chunk each. *)
Definition one_collection : gmap string (@collection int_float) :=
  {[ "reference_docs"%string := {| vector_size := 1; points := ∅ |} ]}.

Definition first_chunks : list DocumentProcessor.chunk_obj :=
  [DocumentProcessor.create_chunk_with_metadata
     (lit "Auth uses JWT.") (lit "auth.md") 0 (Some 1)].

Definition second_chunks : list DocumentProcessor.chunk_obj :=
  [DocumentProcessor.create_chunk_with_metadata
     (lit "Billing runs nightly.") (lit "billing.md") 0 (Some 1)].

Definition first_vectors : list (list (@float int_float)) := [[1]].
Definition second_vectors : list (list (@float int_float)) := [[2]].

(** A store whose collection holds one record with a text and one record
    with an empty payload, and the hits the engine returns for each. *)
Definition text_payload : gmap string pyval :=
  {[ "text"%string := PStr (lit "Auth uses JWT.") ]}.

Definition text_collection : @collection int_float :=
  {| vector_size := 1;
     points := {[ 0%nat := ([1 : @float int_float], text_payload) ]} |}.

Definition bare_collection : @collection int_float :=
  {| vector_size := 1;
     points := {[ 0%nat := ([1 : @float int_float], ∅) ]} |}.

Definition text_hit : @ScoredPoint int_float :=
  {| hit_id := 0; score := (1 : @float int_float);
     hit_payload := text_payload |}.

Definition bare_hit : @ScoredPoint int_float :=
  {| hit_id := 0; score := (1 : @float int_float); hit_payload := ∅ |}.

(** One markdown file with one sentence. *)
Definition auth_file : Backend.UploadFile :=
  {| Backend.filename := lit "auth.md";
     Backend.file_bytes :=
       [x41; x75; x74; x68; x20; x75; x73; x65; x73; x20; x4a; x57; x54;
        x2e] |}.

(** Parsers with a decoder for ASCII text: a byte with the high bit set is
    rejected, as the UTF-8 decoder rejects the bytes FF and FE wherever they
    stand.  The two readers are installed and cannot read what they are
    given. *)
Definition strict_parsers : DocumentParsers :=
  {| decode_utf8 := fun b =>
       if forallb (fun x => N.ltb (N.of_nat (Byte.to_nat x)) 128) b
       then Ok (List.map (fun x => N.of_nat (Byte.to_nat x)) b)
       else Raise UnicodeDecodeError;
     PDF_SUPPORT := true;
     pdf_page_texts := fun _ => Raise (ServiceError "not a PDF");
     DOCX_SUPPORT := true;
     docx_paragraph_texts := fun _ => Raise (ServiceError "not a DOCX") |}.

(** A markdown file saved as UTF-16: the byte order mark FF FE, then the
    letter A in two bytes. *)
Definition utf16_file : Backend.UploadFile :=
  {| Backend.filename := lit "notes.md";
     Backend.file_bytes := [xff; xfe; x41; x00] |}.

End Fixtures.

(* ===================================================================== *)
(** * Part II: properties                                                 *)
(* ===================================================================== *)

(** ** The cleaner *)

Module CleanerFacts.
Import PyStr DocumentProcessor.

Lemma dropwhile_suffix {A} (p : A -> bool) (l : list A) :
  dropwhile p l `suffix_of` l.
Proof.
  induction l as [|x l IH]; simpl; [done|].
  destruct (p x); [|done].
  by apply suffix_cons_r.
Qed.

Lemma dropwhile_head {A} (p : A -> bool) (l : list A) (x : A) (rest : list A) :
  dropwhile p l = x :: rest -> p x = false.
Proof.
  induction l as [|y l IH]; simpl; [done|].
  destruct (p y) eqn:Hy; [done|].
  intros [= -> _]. done.
Qed.

(** Only characters of the allow-list survive. *)
Lemma clean_text_allowed `{UnicodeDb} (text : pystr) (c : char) :
  c ∈ clean_text text -> is_allowed c = true.
Proof.
  unfold clean_text, strip, rstrip, lstrip. intros Hc.
  apply list_elem_of_In, in_rev in Hc.
  destruct (dropwhile_suffix is_space
              (rev (dropwhile is_space
                 (List.filter is_allowed (sub_whitespace_runs false text)))))
    as [k1 Hk1].
  assert (Hc1 : In c (dropwhile is_space
             (List.filter is_allowed (sub_whitespace_runs false text)))).
  { apply in_rev. rewrite Hk1. apply in_or_app. by right. }
  destruct (dropwhile_suffix is_space
              (List.filter is_allowed (sub_whitespace_runs false text)))
    as [k2 Hk2].
  assert (Hc2 : In c (List.filter is_allowed (sub_whitespace_runs false text))).
  { rewrite Hk2. apply in_or_app. by right. }
  apply filter_In in Hc2. tauto.
Qed.

(** The result neither starts nor ends with white space. *)
Lemma clean_text_trimmed_right `{UnicodeDb} (text front : pystr) (c : char) :
  clean_text text = front ++ [c] -> is_space c = false.
Proof.
  unfold clean_text, strip, rstrip. intros Heq.
  apply (f_equal (@rev _)) in Heq.
  rewrite rev_involutive, rev_app_distr in Heq. simpl in Heq.
  by apply dropwhile_head in Heq.
Qed.

(** C8: on the text "a @ b" the cleaner returns "a  b": the two spaces
    around the dropped character stay next to each other, so the result
    holds two adjacent white-space characters. *)
Theorem clean_text_leaves_double_space `{UnicodeDb} :
  clean_text (lit "a @ b") = lit "a  b"
  /\ exists front back, clean_text (lit "a @ b") = front ++ 32%N :: 32%N :: back
                        /\ is_space 32 = true.
Proof.
  split; [reflexivity|].
  exists (lit "a"), (lit "b"). split; reflexivity.
Qed.

End CleanerFacts.

(** ** The chunker *)

Module ChunkerFacts.
Import PyStr DocumentProcessor Notions.

(** C3: for the empty text, whatever the chunk size and the overlap, the
    chunker returns one chunk, the empty string, not the empty sequence. *)
Theorem chunk_by_sentences_empty_text (chunk_size overlap : Z) :
  chunk_by_sentences [] chunk_size overlap = [[]].
Proof.
  unfold chunk_by_sentences. simpl.
  rewrite andb_false_r. reflexivity.
Qed.

Lemma total_len_app (a b : list pystr) :
  total_len (a ++ b) = total_len a + total_len b.
Proof.
  induction a as [|x a IH]; simpl; [lia|].
  unfold total_len in *. simpl. lia.
Qed.

Lemma total_len_nonneg (a : list pystr) : 0 <= total_len a.
Proof.
  induction a as [|x a IH]; unfold total_len, len in *; simpl; lia.
Qed.

(** What the overlap loop computes: it moves the longest run of leading
    sentences of the reversed chunk that fits, one by one, to the front of
    the accumulator. *)
Lemma overlap_loop_spec (overlap : Z) (rc acc : list pystr) (al : Z) :
  exists taken left,
    rc = taken ++ left
    /\ overlap_loop overlap rc acc al = (rev taken ++ acc, al + total_len taken)
    /\ (taken <> [] -> al + total_len taken <= overlap)
    /\ match left with
       | [] => True
       | s :: _ => overlap < al + total_len taken + len s
       end.
Proof.
  revert acc al. induction rc as [|s rc IH]; intros acc al.
  - exists [], []. simpl. repeat split; [f_equal; lia | done].
  - simpl. destruct (al + len s <=? overlap) eqn:Hfit.
    + destruct (IH (s :: acc) (al + len s)) as (taken & left & -> & Heq & Hle & Hmax).
      exists (s :: taken), left. split; [done|]. split.
      { rewrite Heq. simpl. rewrite <- app_assoc. simpl.
        f_equal. unfold total_len. simpl. lia. }
      split.
      { intros _. destruct taken as [|t taken].
        - unfold total_len. simpl. lia.
        - assert (Hne : t :: taken <> []) by done.
          specialize (Hle Hne). unfold total_len in *. simpl in *. lia. }
      { destruct left; [done|]. unfold total_len in *. simpl in *. lia. }
    + exists [], (s :: rc). simpl. repeat split; [f_equal; lia | done | ].
      unfold total_len. simpl. lia.
Qed.

(** The overlap is a trailing run of the closed chunk, within the budget,
    and the sentence before it, if any, would not fit. *)
Lemma overlap_of_spec (overlap : Z) (g : list pystr) :
  exists front,
    g = front ++ overlap_of overlap g
    /\ total_len (overlap_of overlap g) <= Z.max 0 overlap
    /\ (overlap_of overlap g <> [] ->
        total_len (overlap_of overlap g) <= overlap)
    /\ forall front' s, front = front' ++ [s] ->
         overlap < total_len (overlap_of overlap g) + len s.
Proof.
  unfold overlap_of.
  destruct (overlap_loop_spec overlap (rev g) [] 0)
    as (taken & left & Hrev & Heq & Hle & Hmax).
  rewrite Heq. simpl. rewrite app_nil_r.
  exists (rev left). split.
  { rewrite <- rev_app_distr, <- Hrev. by rewrite rev_involutive. }
  assert (Htl : total_len (rev taken) = total_len taken).
  { clear. induction taken as [|t taken IH]; [done|].
    simpl. rewrite total_len_app, IH. unfold total_len. simpl. lia. }
  rewrite Htl. split.
  { destruct taken as [|t taken]; [unfold total_len; simpl; lia|].
    assert (Hne : t :: taken <> []) by done. specialize (Hle Hne). lia. }
  split.
  { intros Hne. destruct taken as [|t taken]; [done|].
    assert (Hne' : t :: taken <> []) by done. specialize (Hle Hne'). lia. }
  intros front' s Hfront.
  destruct left as [|s' left].
  { simpl in Hfront. by destruct front'. }
  simpl in Hfront. apply app_inj_tail in Hfront as [_ ->]. lia.
Qed.

(** The chunker emits the joined sentence lists of [groups_from]. *)
Lemma chunk_loop_groups (chunk_size overlap : Z) (sentences : list pystr) :
  forall chunks current_chunk current_length,
    chunk_loop chunk_size overlap sentences chunks current_chunk current_length
    = chunks ++ List.map (join (lit " "))
                 (groups_from chunk_size overlap sentences
                              current_chunk current_length).
Proof.
  induction sentences as [|s rest IH]; intros chunks cur cl; simpl.
  - destruct cur; simpl; [by rewrite app_nil_r | done].
  - destruct ((cl + len s >? chunk_size) && negb (is_empty cur)).
    + destruct (overlap_loop overlap (rev cur) [] 0) as [ovs ol].
      rewrite IH. simpl. by rewrite <- app_assoc.
    + apply IH.
Qed.

(** The first list still to be emitted extends the current one with the
    sentences that come next, and every later list is seeded by the overlap
    of the one before it and goes on with the sentences that follow that one
    in the text.  [consumed] is what the loop has read so far; the current
    list ends it. *)
Lemma groups_from_chain (chunk_size overlap : Z) (sentences : list pystr) :
  forall all consumed current_chunk current_length,
    all = consumed ++ sentences ->
    current_chunk `suffix_of` consumed ->
    chain (seeded_by overlap all)
      (groups_from chunk_size overlap sentences current_chunk current_length)
    /\ match groups_from chunk_size overlap sentences
                         current_chunk current_length with
       | [] => current_chunk = []
       | g :: _ => exists ext after,
                     g = current_chunk ++ ext /\ sentences = ext ++ after
       end.
Proof.
  induction sentences as [|s rest IH];
    intros all consumed cur cl Hall Hsuf; simpl.
  - destruct cur; simpl; [done|]. split; [done|].
    exists [], []. by rewrite app_nil_r.
  - destruct ((cl + len s >? chunk_size) && negb (is_empty cur)) eqn:Hclose.
    + destruct (overlap_loop overlap (rev cur) [] 0) as [ovs ol] eqn:Hov.
      assert (Hovs : overlap_of overlap cur = ovs)
        by (unfold overlap_of; by rewrite Hov).
      destruct (overlap_of_spec overlap cur) as (front & Hfront & _).
      rewrite Hovs in Hfront.
      destruct Hsuf as [k Hk].
      destruct (IH all (consumed ++ [s]) (ovs ++ [s]) (ol + len s))
        as [Hchain Hhead].
      { by rewrite Hall, <- app_assoc. }
      { exists (k ++ front). rewrite Hk, Hfront. by rewrite <- !app_assoc. }
      split; [|exists [], (s :: rest); by rewrite app_nil_r].
      simpl.
      destruct (groups_from chunk_size overlap rest (ovs ++ [s]) (ol + len s))
        as [|g tl]; [done|].
      split; [|done].
      destruct Hhead as (ext & after & -> & Hrest).
      exists k, (s :: ext), after. split.
      { rewrite Hall, Hk, Hrest. by rewrite <- !app_assoc. }
      split.
      { intros ->. by rewrite andb_false_r in Hclose. }
      split; [done|]. rewrite Hovs. by rewrite <- app_assoc.
    + destruct (IH all (consumed ++ [s]) (cur ++ [s]) (cl + len s))
        as [Hchain Hhead].
      { by rewrite Hall, <- app_assoc. }
      { destruct Hsuf as [k ->]. exists k. by rewrite app_assoc. }
      split; [done|].
      destruct (groups_from chunk_size overlap rest (cur ++ [s]) (cl + len s))
        as [|g tl].
      * by destruct cur.
      * destruct Hhead as (ext & after & -> & ->).
        exists (s :: ext), after. split; [by rewrite <- app_assoc|done].
Qed.

Lemma chain_neighbours {A} (R : A -> A -> Prop) (l : list A) :
  chain R l -> forall pre x y post, l = pre ++ x :: y :: post -> R x y.
Proof.
  intros Hc pre. revert l Hc.
  induction pre as [|p pre IH]; intros l Hc x y post ->; simpl in Hc.
  - tauto.
  - destruct (pre ++ x :: y :: post) as [|z rest] eqn:Heq.
    + by destruct pre.
    + destruct Hc as [_ Hc]. eapply IH; [exact Hc | symmetry; exact Heq].
Qed.

(** Joining a list that ends with some sentences ends with their join, and
    joining a list that starts with them starts with their join. *)
Lemma join_app (sep : pystr) (a b : list pystr) :
  a <> [] -> b <> [] -> join sep (a ++ b) = join sep a ++ sep ++ join sep b.
Proof.
  intros Ha Hb. induction a as [|x a IH]; [done|].
  destruct a as [|y a].
  - simpl. destruct b; [done|]. done.
  - change (join sep ((x :: y :: a) ++ b))
      with (x ++ sep ++ join sep ((y :: a) ++ b)).
    rewrite IH by done.
    change (join sep (x :: y :: a)) with (x ++ sep ++ join sep (y :: a)).
    by rewrite <- !app_assoc.
Qed.

Lemma join_suffix (sep : pystr) (a b : list pystr) :
  join sep b `suffix_of` join sep (a ++ b).
Proof.
  destruct a as [|x a]; [done|].
  destruct b as [|y b]; [apply suffix_nil|].
  rewrite join_app by done.
  exists (join sep (x :: a) ++ sep). by rewrite <- app_assoc.
Qed.

Lemma join_prefix (sep : pystr) (a b : list pystr) :
  join sep a `prefix_of` join sep (a ++ b).
Proof.
  destruct b as [|y b]; [by rewrite app_nil_r|].
  destruct a as [|x a]; [apply prefix_nil|].
  rewrite join_app by done.
  by exists (sep ++ join sep (y :: b)).
Qed.

Lemma join_len (sep : pystr) (a : list pystr) :
  len (join sep a)
  = total_len a + len sep * Z.max 0 (Z.of_nat (length a) - 1).
Proof.
  induction a as [|x a IH]; [unfold total_len, len; simpl; lia|].
  destruct a as [|y a].
  - unfold total_len, len. simpl. lia.
  - change (join sep (x :: y :: a)) with (x ++ sep ++ join sep (y :: a)).
    unfold len in *. rewrite !length_app, !Nat2Z.inj_add, IH.
    unfold total_len, len. simpl length. simpl fold_right. nia.
Qed.

(** Two neighbouring chunks come from two neighbouring sentence lists of the
    text. *)
Lemma neighbours_of_chunks (text : pystr) (chunk_size overlap : Z)
    (pre : list pystr) (c1 c2 : pystr) (post : list pystr) :
  chunk_by_sentences text chunk_size overlap = pre ++ c1 :: c2 :: post ->
  exists g1 g2,
    c1 = join (lit " ") g1 /\ c2 = join (lit " ") g2
    /\ seeded_by overlap (split_sentences text) g1 g2.
Proof.
  unfold chunk_by_sentences. rewrite chunk_loop_groups. simpl.
  intros Hmap.
  apply map_eq_app in Hmap as (gpre & gtail & Hgroups & _ & Htail).
  apply map_eq_cons in Htail as (g1 & gtail' & -> & <- & Htail).
  apply map_eq_cons in Htail as (g2 & gpost & -> & <- & _).
  exists g1, g2. split; [done|]. split; [done|].
  destruct (groups_from_chain chunk_size overlap (split_sentences text)
              (split_sentences text) [] [] 0 eq_refl (suffix_nil _))
    as [Hchain _].
  exact (chain_neighbours _ _ Hchain _ _ _ _ Hgroups).
Qed.

(** C4, as the code has it: two neighbouring chunks share the space-joined
    overlap sentences, the longest trailing run of whole sentences of the
    earlier chunk whose summed length is within the overlap.  The earlier
    chunk is the join of a run [g1] of consecutive sentences of the text; the
    later chunk is the join of the overlap of [g1] followed by [rest], the
    sentences that follow [g1] in the text, at least one.  The shared region
    ends the earlier chunk and starts the later one; its length is the summed
    sentence length, at most the overlap, plus one separating space between
    sentences; it is not empty when the last sentence of the earlier chunk is
    not empty and fits the overlap, and empty when that sentence is longer
    than the overlap. *)
Theorem chunk_overlap_is_trailing_sentences (text : pystr)
    (chunk_size overlap : Z) (pre : list pystr) (c1 c2 : pystr)
    (post : list pystr) :
  chunk_by_sentences text chunk_size overlap = pre ++ c1 :: c2 :: post ->
  exists before g1 rest after,
    let run := overlap_of overlap g1 in
    let w := join (lit " ") run in
    split_sentences text = before ++ g1 ++ rest ++ after
    /\ g1 <> []
    /\ c1 = join (lit " ") g1
    /\ c2 = join (lit " ") (run ++ rest)
    /\ rest <> []
    /\ (exists front,
          g1 = front ++ run
          /\ forall front' s, front = front' ++ [s] ->
               overlap < total_len run + len s)
    /\ total_len run <= Z.max 0 overlap
    /\ w `suffix_of` c1
    /\ w `prefix_of` c2
    /\ len w = total_len run + Z.max 0 (Z.of_nat (length run) - 1)
    /\ (forall front s, g1 = front ++ [s] -> 0 < len s <= overlap -> w <> [])
    /\ (forall front s, g1 = front ++ [s] -> overlap < len s -> w = []).
Proof.
  intros Hchunks.
  destruct (neighbours_of_chunks _ _ _ _ _ _ _ Hchunks)
    as (g1 & g2 & Hc1 & Hc2 & before & rest & after
        & Htext & Hg1 & Hrest & Hg2).
  exists before, g1, rest, after. cbv zeta.
  destruct (overlap_of_spec overlap g1)
    as (front & Hfront & Hbudget & Hwithin & Hmax).
  assert (Hlast : forall front1 s, g1 = front1 ++ [s] ->
            overlap_of overlap g1 <> [] ->
            exists run', overlap_of overlap g1 = run' ++ [s]).
  { intros front1 s Hs Hne.
    destruct (exists_last Hne) as (run' & s' & Hsplit).
    rewrite Hsplit, Hs, app_assoc in Hfront.
    apply app_inj_tail in Hfront as [_ ->]. by exists run'. }
  split; [done|]. split; [done|].
  split; [done|]. split; [by rewrite <- Hg2|]. split; [done|].
  split; [by exists front|]. split; [done|].
  split.
  { rewrite Hc1. rewrite Hfront at 2. apply join_suffix. }
  split.
  { rewrite Hc2, Hg2. apply join_prefix. }
  split.
  { rewrite join_len. change (len (lit " ")) with 1. lia. }
  split.
  - intros front1 s Hs [Hpos Hfit] Hw.
    assert (Hlen : len (join (lit " ") (overlap_of overlap g1)) = 0)
      by (by rewrite Hw).
    rewrite join_len in Hlen. change (len (lit " ")) with 1 in Hlen.
    destruct (decide (overlap_of overlap g1 = [])) as [Hnil|Hne].
    + rewrite Hnil, app_nil_r in Hfront. subst front.
      specialize (Hmax front1 s Hs). rewrite Hnil in Hmax.
      unfold total_len in Hmax. simpl in Hmax. lia.
    + destruct (Hlast front1 s Hs Hne) as [run' Hrun].
      rewrite Hrun, total_len_app in Hlen.
      pose proof (total_len_nonneg run').
      unfold total_len at 2 in Hlen. simpl in Hlen. lia.
  - intros front1 s Hs Hlong.
    destruct (decide (overlap_of overlap g1 = [])) as [Hnil|Hne].
    + by rewrite Hnil.
    + exfalso. specialize (Hwithin Hne).
      destruct (Hlast front1 s Hs Hne) as [run' Hrun].
      rewrite Hrun, total_len_app in Hwithin.
      pose proof (total_len_nonneg run').
      unfold total_len at 2 in Hwithin. simpl in Hwithin. lia.
Qed.

(** The chunks of "Aa. Bb." with chunk size 3 and overlap 1 (an overlap
    below the chunk size) are "Aa." and "Bb.", which share no region at
    all: a non-empty common one would start with "B", and "Aa." has none. *)
Lemma chunk_overlap_can_be_empty :
  1 < 3
  /\ chunk_by_sentences (lit "Aa. Bb.") 3 1 = [lit "Aa."; lit "Bb."]
  /\ ~ (exists w : pystr,
          w <> [] /\ w `suffix_of` lit "Aa." /\ w `prefix_of` lit "Bb."
          /\ len w <= 1).
Proof.
  split; [lia|]. split; [reflexivity|].
  intros (w & Hne & [k Hsuf] & [k' Hpre] & _).
  destruct w as [|c w]; [done|].
  injection Hpre as Hc _.
  assert (Hin : In c (lit "Aa.")).
  { rewrite Hsuf. apply in_or_app. right. by left. }
  subst c. vm_compute in Hin. intuition discriminate.
Qed.

(** A run of the theorem: the chunks of "A. B. C. Dddd. E." with chunk size
    8 and overlap 4. *)
Lemma chunk_overlap_is_trailing_sentences_witness :
  chunk_by_sentences (lit "A. B. C. Dddd. E.") 8 4
  = [] ++ lit "A. B. C." :: lit "B. C. Dddd." :: [lit "E."]
  /\ exists before g1 rest after,
       let run := overlap_of 4 g1 in
       let w := join (lit " ") run in
       split_sentences (lit "A. B. C. Dddd. E.")
       = before ++ g1 ++ rest ++ after
       /\ g1 <> []
       /\ lit "A. B. C." = join (lit " ") g1
       /\ lit "B. C. Dddd." = join (lit " ") (run ++ rest)
       /\ rest <> []
       /\ (exists front,
             g1 = front ++ run
             /\ forall front' s, front = front' ++ [s] ->
                  4 < total_len run + len s)
       /\ total_len run <= Z.max 0 4
       /\ w `suffix_of` lit "A. B. C."
       /\ w `prefix_of` lit "B. C. Dddd."
       /\ len w = total_len run + Z.max 0 (Z.of_nat (length run) - 1)
       /\ (forall front s, g1 = front ++ [s] -> 0 < len s <= 4 -> w <> [])
       /\ (forall front s, g1 = front ++ [s] -> 4 < len s -> w = []).
Proof.
  split; [reflexivity|].
  apply (chunk_overlap_is_trailing_sentences
           (lit "A. B. C. Dddd. E.") 8 4 [] (lit "A. B. C.")
           (lit "B. C. Dddd.") [lit "E."]).
  reflexivity.
Defined.

End ChunkerFacts.

(** ** The batch embedder *)

Module EmbedderFacts.
Import PyStr Embedder Notions.

Ltac run := unfold bind, try_except, ret, raise, lift_result in *.

Section Totality.
Context `{EmbeddingService}.

(** The fallback loop never raises: it appends one vector per text. *)
Lemma fallback_loop_total (batch : list pystr) (s : service) :
  exists vs s',
    length vs = length batch
    /\ forall all_embeddings,
         fallback_loop batch all_embeddings s = (Ok (all_embeddings ++ vs), s').
Proof.
  revert s. induction batch as [|text rest IH]; intros s.
  - exists [], s. split; [done|]. intros acc. simpl. run. by rewrite app_nil_r.
  - destruct (get_embedding text s) as [[v|e] s1] eqn:Hg.
    + destruct (IH s1) as (vs & s' & Hlen & Hrun).
      exists (v :: vs), s'. split; [simpl; lia|]. intros acc.
      simpl. run. rewrite Hg. rewrite Hrun. by rewrite <- app_assoc.
    + destruct (IH s1) as (vs & s' & Hlen & Hrun).
      exists (zero_vector :: vs), s'. split; [simpl; lia|]. intros acc.
      simpl. run. rewrite Hg. rewrite Hrun. by rewrite <- app_assoc.
Qed.

Lemma fallback_loop_app (b1 b2 : list pystr) (s : service) :
  forall all_embeddings,
    fallback_loop (b1 ++ b2) all_embeddings s
    = bind (fallback_loop b1 all_embeddings) (fallback_loop b2) s.
Proof.
  revert s. induction b1 as [|text b1 IH]; intros s acc; simpl.
  - by run.
  - run. destruct (get_embedding text s) as [[v|e] s1]; apply IH.
Qed.

(** Nor does the loop body raise: it appends to what was gathered. *)
Lemma embed_batch_total (batch : list pystr) (s : service) :
  exists vs s',
    forall all_embeddings,
      embed_batch batch all_embeddings s = (Ok (all_embeddings ++ vs), s').
Proof.
  unfold embed_batch. run.
  destruct (embedding_create batch s) as [[data|e] s1] eqn:Hc.
  - exists data, s1. done.
  - destruct (fallback_loop_total batch s1) as (vs & s' & _ & Hrun).
    exists vs, s'. done.
Qed.

Lemma batches_loop_total (texts : list pystr) (batch_size : Z)
    (indices : list Z) (s : service) :
  exists vs s',
    forall all_embeddings,
      batches_loop texts batch_size indices all_embeddings s
      = (Ok (all_embeddings ++ vs), s').
Proof.
  revert s. induction indices as [|idx rest IH]; intros s.
  - exists [], s. intros acc. simpl. run. by rewrite app_nil_r.
  - destruct (embed_batch_total
                (slice texts idx (idx + batch_size)) s) as (vs1 & s1 & H1).
    destruct (IH s1) as (vs2 & s2 & H2).
    exists (vs1 ++ vs2), s2. intros acc. simpl. unfold bind at 1.
    rewrite H1, H2. by rewrite <- app_assoc.
Qed.

Lemma batches_loop_app (texts : list pystr) (batch_size : Z)
    (i1 i2 : list Z) (s : service) :
  forall all_embeddings,
    batches_loop texts batch_size (i1 ++ i2) all_embeddings s
    = bind (batches_loop texts batch_size i1 all_embeddings)
           (batches_loop texts batch_size i2) s.
Proof.
  revert s. induction i1 as [|idx i1 IH]; intros s acc; simpl.
  - by run.
  - unfold bind in *.
    destruct (embed_batch (slice texts idx (idx + batch_size)) acc s)
      as [[acc'|e] s1]; [apply IH | done].
Qed.

(** C6, as the code has it: when the request for a batch fails and then
    the request for one of its texts fails too, the vector put at the place
    of that text is the vector of 1536 zeros.  The result is the bare list of
    vectors: [acc_k] is what the batches before gathered, [vs_j] what the
    fallback gathered for the [j] texts before this one. *)
Theorem failed_item_gets_zero_vector (texts : list pystr) (batch_size : Z)
    (s : service) (k j : nat) (idx : Z) (text : pystr)
    (acc_k vs_j : list vec) (s_k s_k' s_kj s_kj' : service) (e e' : exn) :
  let indices := range_step (Z.of_nat (length texts)) batch_size in
  let batch := slice texts idx (idx + batch_size) in
  0 < batch_size ->
  indices !! k = Some idx ->
  batches_loop texts batch_size (firstn k indices) [] s = (Ok acc_k, s_k) ->
  embedding_create batch s_k = (Raise e, s_k') ->
  batch !! j = Some text ->
  fallback_loop (firstn j batch) [] s_k' = (Ok vs_j, s_kj) ->
  get_embedding text s_kj = (Raise e', s_kj') ->
  exists all_embeddings s' later,
    get_embeddings_batch texts batch_size s = (Ok all_embeddings, s')
    /\ all_embeddings = acc_k ++ vs_j ++ zero_vector :: later
    /\ length vs_j = j
    /\ all_embeddings !! (length acc_k + j)%nat = Some zero_vector.
Proof.
  intros indices batch Hpos Hidx Hbefore Hbatch Htext Hitems Hitem.
  assert (Hj : length vs_j = j).
  { destruct (fallback_loop_total (firstn j batch) s_k')
      as (vs & s1 & Hlen & Hrun).
    rewrite (Hrun []) in Hitems. simpl in Hitems.
    injection Hitems as <- _. rewrite Hlen.
    apply firstn_length_le. apply lookup_lt_Some in Htext. lia. }
  destruct (fallback_loop_total (skipn (S j) batch) s_kj')
    as (vs_post & s_post & _ & Hpost).
  destruct (batches_loop_total texts batch_size (skipn (S k) indices) s_post)
    as (vs_rest & s_end & Hrest).
  exists (acc_k ++ vs_j ++ zero_vector :: vs_post ++ vs_rest), s_end,
         (vs_post ++ vs_rest).
  split; [|split; [done|split; [done|]]].
  - unfold get_embeddings_batch.
    destruct (batch_size =? 0) eqn:Hz; [lia|].
    fold indices. rewrite <- (take_drop_middle indices k idx Hidx).
    rewrite batches_loop_app. unfold bind at 1. rewrite Hbefore.
    simpl. unfold bind at 1. fold batch.
    assert (Hstep : embed_batch batch acc_k s_k
                    = (Ok ((acc_k ++ vs_j ++ [zero_vector]) ++ vs_post), s_post)).
    { unfold embed_batch. unfold try_except at 1. unfold bind at 1.
      rewrite Hbatch.
      rewrite <- (take_drop_middle batch j text Htext).
      rewrite fallback_loop_app. unfold bind at 1.
      destruct (fallback_loop_total (firstn j batch) s_k')
        as (vs & s1 & _ & Hrun).
      rewrite (Hrun []) in Hitems. simpl in Hitems.
      injection Hitems as -> ->.
      rewrite (Hrun acc_k). simpl. run. rewrite Hitem.
      rewrite Hpost. by rewrite <- !app_assoc. }
    rewrite Hstep, Hrest. f_equal. f_equal.
    rewrite <- !app_assoc. simpl. done.
  - rewrite lookup_app_r by lia.
    replace (length acc_k + j - length acc_k)%nat with j by lia.
    rewrite lookup_app_r by lia.
    replace (j - length vs_j)%nat with 0%nat by lia. done.
Qed.

End Totality.

(** *** Slices *)

Lemma firstn_add {A} (n m : nat) (l : list A) :
  firstn (n + m) l = firstn n l ++ firstn m (skipn n l).
Proof.
  revert l. induction n as [|n IH]; intros l; [done|].
  destruct l as [|x l]; simpl.
  - by rewrite firstn_nil.
  - by rewrite IH.
Qed.

Lemma slice_app {A} (l : list A) (i j k : Z) :
  0 <= i <= j -> j <= k -> slice l i k = slice l i j ++ slice l j k.
Proof.
  intros Hij Hjk. unfold slice.
  replace (Z.to_nat (k - i)) with (Z.to_nat (j - i) + Z.to_nat (k - j))%nat
    by lia.
  rewrite firstn_add. f_equal. f_equal.
  rewrite skipn_skipn. f_equal. lia.
Qed.

Lemma slice_all {A} (l : list A) (k : Z) :
  Z.of_nat (length l) <= k -> slice l 0 k = l.
Proof.
  intros Hk. unfold slice. simpl. apply firstn_all2. lia.
Qed.

Lemma slice_empty {A} (l : list A) (i : Z) : slice l i i = [].
Proof. unfold slice. by rewrite Z.sub_diag. Qed.

Lemma range_step_covers (stop step : Z) :
  0 < step -> 0 <= stop ->
  stop <= Z.of_nat (Z.to_nat ((stop + step - 1) / step)) * step.
Proof.
  intros Hstep Hstop.
  pose proof (Z.div_mod (stop + step - 1) step ltac:(lia)) as Hdm.
  pose proof (Z.mod_pos_bound (stop + step - 1) step Hstep) as Hmod.
  assert (0 <= (stop + step - 1) / step) by (apply Z.div_pos; lia).
  rewrite Z2Nat.id by done. nia.
Qed.

Section Contract.
Context `{EmbeddingService}.
Variable embeds : pystr -> vec -> Prop.
Hypothesis contract : service_contract embeds.

Lemma get_embedding_embeds (text : pystr) (s s' : service) (v : vec) :
  get_embedding text s = (Ok v, s') -> embeds text v.
Proof.
  unfold get_embedding. run.
  destruct (embedding_create [text] s) as [[data|e] s1] eqn:Hc; [|done].
  apply contract in Hc.
  destruct data as [|d data]; [done|]. intros [= <- _].
  by inversion Hc.
Qed.

Lemma fallback_loop_related (batch : list pystr) (s : service) :
  exists vs s',
    Forall2 (embedding_or_placeholder embeds) batch vs
    /\ forall all_embeddings,
         fallback_loop batch all_embeddings s = (Ok (all_embeddings ++ vs), s').
Proof.
  revert s. induction batch as [|text rest IH]; intros s.
  - exists [], s. split; [constructor|].
    intros acc. simpl. run. by rewrite app_nil_r.
  - destruct (get_embedding text s) as [[v|e] s1] eqn:Hg;
      destruct (IH s1) as (vs & s' & Hrel & Hrun).
    + exists (v :: vs), s'. split.
      { constructor; [|done]. left. by eapply get_embedding_embeds. }
      intros acc. simpl. run. rewrite Hg, Hrun. by rewrite <- app_assoc.
    + exists (zero_vector :: vs), s'. split.
      { constructor; [|done]. by right. }
      intros acc. simpl. run. rewrite Hg, Hrun. by rewrite <- app_assoc.
Qed.

Lemma embed_batch_related (batch : list pystr) (s : service) :
  exists vs s',
    Forall2 (embedding_or_placeholder embeds) batch vs
    /\ forall all_embeddings,
         embed_batch batch all_embeddings s = (Ok (all_embeddings ++ vs), s').
Proof.
  unfold embed_batch. run.
  destruct (embedding_create batch s) as [[data|e] s1] eqn:Hc.
  - exists data, s1. split; [|done].
    apply contract in Hc.
    eapply Forall2_impl; [exact Hc|]. intros t v Hv. by left.
  - destruct (fallback_loop_related batch s1) as (vs & s' & Hrel & Hrun).
    exists vs, s'. done.
Qed.

Lemma batches_loop_related (texts : list pystr) (batch_size : Z) (n : nat) :
  0 < batch_size ->
  forall (a : nat) (s : service),
  exists vs s',
    Forall2 (embedding_or_placeholder embeds)
      (slice texts (Z.of_nat a * batch_size)
                   (Z.of_nat (a + n) * batch_size)) vs
    /\ forall all_embeddings,
         batches_loop texts batch_size
           (List.map (fun k => Z.of_nat k * batch_size) (seq a n))
           all_embeddings s
         = (Ok (all_embeddings ++ vs), s').
Proof.
  intros Hpos. induction n as [|n IH]; intros a s.
  - exists [], s. split.
    { rewrite Nat.add_0_r, slice_empty. constructor. }
    intros acc. simpl. run. by rewrite app_nil_r.
  - simpl.
    destruct (embed_batch_related
                (slice texts (Z.of_nat a * batch_size)
                             (Z.of_nat a * batch_size + batch_size)) s)
      as (vs1 & s1 & Hrel1 & Hrun1).
    destruct (IH (S a) s1) as (vs2 & s2 & Hrel2 & Hrun2).
    exists (vs1 ++ vs2), s2. split.
    { rewrite (slice_app texts _ (Z.of_nat a * batch_size + batch_size))
        by nia.
      apply Forall2_app; [done|].
      replace (Z.of_nat a * batch_size + batch_size)
        with (Z.of_nat (S a) * batch_size) by lia.
      by replace (a + S n)%nat with (S a + n)%nat by lia. }
    intros acc. unfold bind at 1. rewrite Hrun1, Hrun2.
    by rewrite <- app_assoc.
Qed.

(** C1: for every list of texts and every positive batch size, whatever
    requests fail, the batch embedder returns (it does not raise) one vector
    per text, and the vector at the place of a text is an embedding of that
    text or the placeholder: the result has the length and the order of the
    input.  The embedding service is held to its contract (a request that
    succeeds answers with one vector per text, in order). *)
Theorem get_embeddings_batch_total_and_ordered (texts : list pystr)
    (batch_size : Z) (s : service) :
  0 < batch_size ->
  exists all_embeddings s',
    get_embeddings_batch texts batch_size s = (Ok all_embeddings, s')
    /\ length all_embeddings = length texts
    /\ Forall2 (embedding_or_placeholder embeds) texts all_embeddings.
Proof.
  intros Hpos. unfold get_embeddings_batch, range_step.
  destruct (batch_size =? 0) eqn:Hz; [lia|].
  destruct (batch_size >? 0) eqn:Hgt; [|lia].
  destruct (batches_loop_related texts batch_size
              (Z.to_nat ((Z.of_nat (length texts) + batch_size - 1) / batch_size))
              Hpos 0%nat s) as (vs & s' & Hrel & Hrun).
  exists vs, s'. rewrite Hrun. simpl.
  rewrite slice_all in Hrel
    by (simpl; apply range_step_covers; lia).
  split; [done|]. split; [|done].
  symmetry. by eapply Forall2_length.
Qed.

End Contract.

(** *** Runs on the stand-in services *)

Import Fixtures.

(** The counting service keeps the contract, with "the embedding of a text"
    read as the one-entry vector of its length. *)
Lemma flaky_service_contract :
  @service_contract _ flaky_service (fun t v => v = [len t]).
Proof.
  intros input n data s'. simpl.
  destruct (Nat.even n); [|done]. intros [= <- _].
  induction input as [|t input IH]; simpl; by constructor.
Qed.

(** On three texts in batches of two the counting service answers the first
    batch, refuses the second, and answers the retry of its only text. *)
Lemma get_embeddings_batch_total_and_ordered_witness :
  0 < 2
  /\ @get_embeddings_batch _ flaky_service [lit "a"; lit "bc"; lit "def"] 2 0%nat
     = (Ok [[1]; [2]; [3]], 3%nat)
  /\ exists all_embeddings s',
       @get_embeddings_batch _ flaky_service
         [lit "a"; lit "bc"; lit "def"] 2 0%nat = (Ok all_embeddings, s')
       /\ length all_embeddings = length [lit "a"; lit "bc"; lit "def"]
       /\ Forall2 (@embedding_or_placeholder _ flaky_service
                     (fun t v => v = [len t]))
                  [lit "a"; lit "bc"; lit "def"] all_embeddings.
Proof.
  split; [lia|]. split; [reflexivity|].
  apply (@get_embeddings_batch_total_and_ordered _ flaky_service
           (fun t v => v = [len t]) flaky_service_contract
           [lit "a"; lit "bc"; lit "def"] 2 0%nat).
  lia.
Defined.

(** With the service down, the second of two texts is one whose batch
    request and own request both fail. *)
Lemma failed_item_gets_zero_vector_witness :
  exists all_embeddings s' later,
    @get_embeddings_batch _ down_service [lit "a"; lit "b"] 100 tt
    = (Ok all_embeddings, s')
    /\ all_embeddings
       = [] ++ [@zero_vector int_float]
            ++ @zero_vector int_float :: later
    /\ length [@zero_vector int_float] = 1%nat
    /\ all_embeddings !! (length (@nil (list Z)) + 1)%nat
       = Some (@zero_vector int_float).
Proof.
  apply (@failed_item_gets_zero_vector _ down_service
           [lit "a"; lit "b"] 100 tt 0%nat 1%nat 0 (lit "b")
           [] [@zero_vector int_float] tt tt tt tt
           (ServiceError "unavailable") (ServiceError "unavailable"));
    first [lia | reflexivity].
Defined.

(** C6 fails on the code: with the service down the request for the batch
    and the request for its text both fail, yet the caller receives exactly
    what it receives from a service that embeds the text as the vector of
    1536 zeros.  No test on the returned value can flag the failure. *)
Lemma failed_item_is_not_flagged :
  @embedding_create _ down_service [lit "a"] tt
  = (Raise (ServiceError "unavailable"), tt)
  /\ @get_embedding _ down_service (lit "a") tt
     = (Raise (ServiceError "unavailable"), tt)
  /\ @embedding_create _ zeros_service [lit "a"] tt = (Ok [repeat 0 1536], tt)
  /\ fst (@get_embeddings_batch _ down_service [lit "a"] 100 tt)
     = fst (@get_embeddings_batch _ zeros_service [lit "a"] 100 tt)
  /\ ~ (exists flagged : result (list (list Z)) -> nat -> bool,
          flagged (fst (@get_embeddings_batch _ down_service
                          [lit "a"] 100 tt)) 0%nat = true
          /\ flagged (fst (@get_embeddings_batch _ zeros_service
                             [lit "a"] 100 tt)) 0%nat = false).
Proof.
  assert (Hsame :
    fst (@get_embeddings_batch _ down_service [lit "a"] 100 tt)
    = fst (@get_embeddings_batch _ zeros_service [lit "a"] 100 tt))
    by (vm_compute; reflexivity).
  repeat split; try reflexivity; try exact Hsame.
  intros (flagged & Hdown & Hzero).
  rewrite Hsame in Hdown. congruence.
Qed.

End EmbedderFacts.

(** ** The vector store gateway *)

Module GatewayFacts.
Import PyStr DocumentProcessor QdrantUtils Notions.

Ltac run := unfold bind, try_except, ret, raise, lift_result in *.

Lemma result_list_Forall2 {A B} (f : A -> result B) (xs : list A)
    (ys : list B) :
  result_list f xs = Ok ys -> Forall2 (fun x y => f x = Ok y) xs ys.
Proof.
  revert ys. induction xs as [|x xs IH]; intros ys; simpl.
  - intros [= <-]. constructor.
  - destruct (f x) as [y|e] eqn:Hx; simpl; [|done].
    destruct (result_list f xs) as [ys'|e] eqn:Hxs; simpl; [|done].
    intros [= <-]. constructor; [done|]. by apply IH.
Qed.

Section WithFloat.
Context `{PyFloat}.

Lemma make_point_id (chunk_objs : list chunk_obj) (embeddings : list vec)
    (i : nat) (p : PointStruct) :
  make_point chunk_objs embeddings i = Ok p -> id p = i.
Proof.
  unfold make_point.
  destruct (embeddings !! i); [|done].
  destruct (chunk_objs !! i); [|done].
  by intros [= <-].
Qed.

(** What one upsert leaves under an id: the record of the batch with that id
    if there is one, else what was there. *)
Lemma fold_upsert_other (batch : list PointStruct)
    (pts : gmap nat (vec * gmap string pyval)) (i : nat) :
  Forall (fun q => id q <> i) batch ->
  fold_left upsert_point batch pts !! i = pts !! i.
Proof.
  revert pts. induction batch as [|q batch IH]; intros pts Hall; [done|].
  inversion Hall as [|? ? Hq Hrest]; subst. simpl.
  rewrite IH by done. unfold upsert_point. by rewrite lookup_insert_ne.
Qed.

Lemma fold_upsert_hit (chunk_objs : list chunk_obj) (embeddings : list vec)
    (batch : list PointStruct) (pts : gmap nat (vec * gmap string pyval))
    (p : PointStruct) :
  Forall (fun q => make_point chunk_objs embeddings (id q) = Ok q) batch ->
  In p batch ->
  fold_left upsert_point batch pts !! id p = Some (vector p, payload p).
Proof.
  revert p. induction batch as [|q batch IH] using rev_ind; intros p Hall Hin.
  - destruct Hin.
  - rewrite fold_left_app. simpl. unfold upsert_point at 1.
    apply Forall_app in Hall as [Hall Hq].
    inversion Hq as [|? ? Hq' _]; subst.
    destruct (decide (id q = id p)) as [Heq|Hne].
    + rewrite Heq, lookup_insert_eq.
      apply in_app_or in Hin as [Hin|[->|[]]]; [|done].
      assert (Hp : make_point chunk_objs embeddings (id p) = Ok p).
      { rewrite Forall_forall in Hall. apply Hall. by apply list_elem_of_In. }
      rewrite <- Heq, Hq' in Hp. by injection Hp as ->.
    + rewrite lookup_insert_ne by done.
      apply in_app_or in Hin as [Hin|[->|[]]]; [by apply IH | done].
Qed.

(** The points built for a range of indices: each is the point of its own
    id, the ids are those of the range, and every index has its point. *)
Lemma batch_points_spec (chunk_objs : list chunk_obj) (embeddings : list vec)
    (n : nat) :
  forall (a : nat) (batch : list PointStruct),
    result_list (make_point chunk_objs embeddings) (seq a n) = Ok batch ->
    Forall (fun q => make_point chunk_objs embeddings (id q) = Ok q
                     /\ (a <= id q < a + n)%nat) batch
    /\ forall i, (a <= i < a + n)%nat ->
         exists p, In p batch /\ make_point chunk_objs embeddings i = Ok p.
Proof.
  induction n as [|n IH]; intros a batch; simpl.
  - intros [= <-]. split; [constructor|]. intros i Hi. lia.
  - destruct (make_point chunk_objs embeddings a) as [p|e] eqn:Hp; simpl; [|done].
    destruct (result_list (make_point chunk_objs embeddings) (seq (S a) n))
      as [ps|e] eqn:Hps; simpl; [|done].
    intros [= <-]. destruct (IH (S a) ps Hps) as [Hall Hevery].
    pose proof (make_point_id _ _ _ _ Hp) as Hid. split.
    + constructor; [rewrite Hid; split; [done|lia]|].
      eapply Forall_impl; [exact Hall|]. simpl. intros q [Hq Hr]. split; [done|lia].
    + intros i Hi. destruct (decide (i = a)) as [->|Hne].
      * exists p. split; [by left|done].
      * destruct (Hevery i ltac:(lia)) as (q & Hin & Hq).
        exists q. split; [by right|done].
Qed.

Lemma client_upsert_ok (collection_name : string) (batch : list PointStruct)
    (st st' : gmap string collection) :
  client_upsert collection_name batch st = (Ok tt, st') ->
  exists c,
    st !! collection_name = Some c
    /\ st' = <[collection_name :=
                {| vector_size := vector_size c;
                   points := fold_left upsert_point batch (points c) |}]> st.
Proof.
  unfold client_upsert.
  destruct (st !! collection_name) as [c|]; [|done].
  destruct (forallb _ batch); [|done].
  intros [= <-]. by exists c.
Qed.

(** The batches numbered [k] to [k + m - 1] write the records of the indices
    they cover and leave every other id of the collection as it was. *)
Lemma upload_loop_spec (collection_name : string)
    (chunk_objs : list chunk_obj) (embeddings : list vec) (m : nat) :
  forall (k : nat) (st st' : gmap string collection),
    upload_loop collection_name chunk_objs embeddings (seq k m) st
    = (Ok tt, st') ->
    let lo := (k * upload_batch_size)%nat in
    let hi := Nat.min ((k + m) * upload_batch_size) (length chunk_objs) in
    (forall i, (lo <= i < hi)%nat ->
       holds_record st' collection_name chunk_objs embeddings i)
    /\ (forall i c, (i < lo \/ hi <= i)%nat ->
         st !! collection_name = Some c ->
         exists c', st' !! collection_name = Some c'
                    /\ points c' !! i = points c !! i).
Proof.
  unfold upload_batch_size.
  induction m as [|m IH]; intros k st st'; simpl.
  - run. intros [= <-]. split; [intros i Hi; lia|].
    intros i c _ Hc. by exists c.
  - run.
    destruct (result_list (make_point chunk_objs embeddings) _)
      as [batch|e] eqn:Hbatch; [|done].
    destruct (client_upsert collection_name batch st) as [[[]|e] st1] eqn:Hup;
      [|done].
    intros Hloop.
    apply client_upsert_ok in Hup as (c0 & Hc0 & ->).
    apply batch_points_spec in Hbatch as [Hall Hevery].
    unfold upload_batch_size in *.
    destruct (IH (S k) _ _ Hloop) as [Hheld Hkept]. clear IH Hloop.
    split.
    + intros i Hi.
      destruct (decide (i < S k * 100)%nat) as [Hlow|Hhigh];
        [|apply Hheld; lia].
      destruct (Hevery i ltac:(lia)) as (p & Hin & Hp).
      edestruct (Hkept i) as (c' & Hc' & Hsame);
        [left; lia | apply lookup_insert_eq |].
      exists c', p. split; [done|]. split; [done|].
      rewrite Hsame. simpl.
      rewrite <- (make_point_id _ _ _ _ Hp).
      eapply fold_upsert_hit; [|done].
      eapply Forall_impl; [exact Hall|]. simpl. by intros q [Hq _].
    + intros i c Hi Hc. rewrite Hc in Hc0. injection Hc0 as <-.
      edestruct (Hkept i) as (c' & Hc' & Hsame);
        [lia | apply lookup_insert_eq |].
      exists c'. split; [done|]. rewrite Hsame. simpl.
      apply fold_upsert_other.
      eapply Forall_impl; [exact Hall|]. simpl. intros q [_ Hq]. lia.
Qed.

Lemma upload_spec (collection_name : string)
    (chunk_objs : list chunk_obj) (embeddings : list vec)
    (st st' : gmap string collection) :
  upload_documents_with_metadata collection_name chunk_objs embeddings st
  = (Ok tt, st') ->
  (forall i, (i < length chunk_objs)%nat ->
     holds_record st' collection_name chunk_objs embeddings i)
  /\ (forall i c, (length chunk_objs <= i)%nat ->
       st !! collection_name = Some c ->
       exists c', st' !! collection_name = Some c'
                  /\ points c' !! i = points c !! i).
Proof.
  unfold upload_documents_with_metadata. intros Hloop.
  apply upload_loop_spec in Hloop as [Hheld Hkept].
  assert (Hcover :
    (length chunk_objs
     <= (0 + (length chunk_objs + upload_batch_size - 1) / upload_batch_size)
        * upload_batch_size)%nat).
  { unfold upload_batch_size.
    pose proof (Nat.div_mod (length chunk_objs + 100 - 1) 100 ltac:(lia)).
    pose proof (Nat.mod_upper_bound (length chunk_objs + 100 - 1) 100 ltac:(lia)).
    lia. }
  split.
  - intros i Hi. apply Hheld. lia.
  - intros i c Hi Hc. apply (Hkept i c); [lia|done].
Qed.

Lemma collection_exists_spec (collection_name : string)
    (st : gmap string collection) :
  collection_exists collection_name st
  = (Ok (bool_decide (is_Some (st !! collection_name))), st).
Proof.
  unfold collection_exists, client_get_collection. run.
  by destruct (st !! collection_name) as [c|].
Qed.

(** Recreating a collection wipes it: whatever the store held under the
    name, the collection is empty afterwards. *)
Lemma create_collection_resets (collection_name : string) (size : Z)
    (st : gmap string collection) :
  create_collection collection_name size st
  = (Ok tt, <[collection_name := {| vector_size := size; points := ∅ |}]> st).
Proof.
  unfold create_collection. unfold bind at 1.
  rewrite collection_exists_spec.
  destruct (st !! collection_name) as [c|] eqn:Hc.
  - rewrite bool_decide_eq_true_2 by (by eexists).
    unfold client_delete_collection, client_create_collection. run.
    rewrite lookup_delete_eq. by rewrite insert_delete_eq.
  - rewrite bool_decide_eq_false_2 by (by intros [? ?]).
    unfold client_create_collection. run. by rewrite Hc.
Qed.

(** C2, as the code has it: every upload numbers its records from zero, so
    after two uploads into the same collection the ids below the size of the
    second upload hold the records of the second, and a record of the first
    upload is still there when its index is not below that size; under a
    shared id a record of the first upload that differs from the second's is
    gone. *)
Theorem second_upload_overwrites_shared_ids (collection_name : string)
    (chunks1 chunks2 : list chunk_obj) (vectors1 vectors2 : list vec)
    (st st1 st2 : gmap string collection) :
  upload_documents_with_metadata collection_name chunks1 vectors1 st
  = (Ok tt, st1) ->
  upload_documents_with_metadata collection_name chunks2 vectors2 st1
  = (Ok tt, st2) ->
  forall i,
    ((i < length chunks2)%nat ->
       holds_record st2 collection_name chunks2 vectors2 i)
    /\ ((length chunks2 <= i < length chunks1)%nat ->
         holds_record st2 collection_name chunks1 vectors1 i)
    /\ ((i < length chunks2)%nat ->
         forall p1 p2,
           make_point chunks1 vectors1 i = Ok p1 ->
           make_point chunks2 vectors2 i = Ok p2 ->
           (vector p1, payload p1) <> (vector p2, payload p2) ->
           ~ holds_record st2 collection_name chunks1 vectors1 i).
Proof.
  intros Hfirst Hsecond i.
  apply upload_spec in Hfirst as [Hheld1 _].
  apply upload_spec in Hsecond as [Hheld2 Hkept2].
  split; [by apply Hheld2|]. split.
  - intros [Hge Hlt].
    destruct (Hheld1 i Hlt) as (c1 & p & Hc1 & Hp & Hstored).
    destruct (Hkept2 i c1 Hge Hc1) as (c2 & Hc2 & Hsame).
    exists c2, p. by rewrite Hsame.
  - intros Hlt p1 p2 Hp1 Hp2 Hdiff (c & p & Hc & Hp & Hstored).
    destruct (Hheld2 i Hlt) as (c' & p' & Hc' & Hp' & Hstored').
    rewrite Hc in Hc'. injection Hc' as <-.
    rewrite Hp in Hp1. injection Hp1 as ->.
    rewrite Hp' in Hp2. injection Hp2 as ->.
    rewrite Hstored in Hstored'. by injection Hstored' as Hv Hpl; apply Hdiff; f_equal.
Qed.

Section WithEngine.
Context `{!SimilarityEngine}.

(** C5: for every query vector and every [top_k], searching a collection
    that the store does not have returns the empty list; nothing is raised
    and the store is left as it was. *)
Theorem search_missing_collection_is_empty (collection_name : string)
    (query_embedding : vec) (top_k : Z) (st : gmap string collection) :
  st !! collection_name = None ->
  search_documents_with_metadata collection_name query_embedding top_k st
  = (Ok [], st).
Proof.
  intros Hmissing. unfold search_documents_with_metadata. unfold bind at 1.
  rewrite collection_exists_spec, Hmissing.
  rewrite bool_decide_eq_false_2 by (by intros [? ?]). done.
Qed.

(** C10: the legacy search is the metadata search followed by the
    projection on the text field: same store afterwards, same exception if
    one is raised, and otherwise the texts of the same results in the same
    order. *)
Theorem search_documents_is_text_projection (collection_name : string)
    (query_embedding : vec) (top_k : Z) (st : gmap string collection) :
  search_documents collection_name query_embedding top_k st
  = (result_map (List.map r_text)
       (fst (search_documents_with_metadata
               collection_name query_embedding top_k st)),
     snd (search_documents_with_metadata
            collection_name query_embedding top_k st)).
Proof.
  unfold search_documents, bind, ret.
  by destruct (search_documents_with_metadata
                 collection_name query_embedding top_k st) as [[results|e] st'].
Qed.

(** For a collection that exists and whose hits all carry a text, the legacy
    search returns the texts of the engine's hits, in the engine's order. *)
Lemma search_documents_texts (collection_name : string)
    (query_embedding : vec) (top_k : Z) (st : gmap string collection)
    (c : collection) (hits : list ScoredPoint) (texts : list pyval) :
  st !! collection_name = Some c ->
  has_size (vector_size c) query_embedding = true ->
  cosine_search c query_embedding top_k = Ok hits ->
  Forall2 (fun h t => hit_payload h !! "text"%string = Some t) hits texts ->
  search_documents collection_name query_embedding top_k st = (Ok texts, st).
Proof.
  intros Hc Hsize Hhits Htexts.
  assert (Hfmt : exists results,
             result_list format_result hits = Ok results
             /\ List.map r_text results = texts).
  { clear Hhits. induction Htexts as [|h t hits texts Ht _ IH].
    - by exists [].
    - destruct IH as (results & Hres & Hmap). simpl.
      unfold format_result at 1. rewrite Ht. simpl. rewrite Hres. simpl.
      eexists. split; [done|]. simpl. by rewrite Hmap. }
  destruct Hfmt as (results & Hres & <-).
  unfold search_documents, search_documents_with_metadata.
  unfold bind at 1 2.
  rewrite collection_exists_spec, Hc.
  rewrite bool_decide_eq_true_2 by (by eexists). simpl.
  unfold client_search. run. by rewrite Hc, Hsize, Hhits, Hres.
Qed.

End WithEngine.
End WithFloat.

Import Fixtures.

(** A store without the collection: the search returns the empty list. *)
Lemma search_missing_collection_is_empty_witness :
  (∅ : gmap string (@collection int_float)) !! "reference_docs"%string = None
  /\ @search_documents_with_metadata int_float id_order_engine
       "reference_docs" [1; 0] 5 ∅ = (Ok [], ∅).
Proof.
  split; [reflexivity|].
  apply (@search_missing_collection_is_empty int_float id_order_engine
           "reference_docs" [1; 0] 5 ∅).
  reflexivity.
Defined.

(** C2 fails on the code: the second of two one-chunk uploads takes id 0
    like the first, and the record of the first is no longer in the
    collection. *)
Lemma second_upload_drops_first_record :
  let st1 := snd (upload_documents_with_metadata "reference_docs"
                    first_chunks first_vectors one_collection) in
  let st2 := snd (upload_documents_with_metadata "reference_docs"
                    second_chunks second_vectors st1) in
  fst (upload_documents_with_metadata "reference_docs"
         first_chunks first_vectors one_collection) = Ok tt
  /\ fst (upload_documents_with_metadata "reference_docs"
            second_chunks second_vectors st1) = Ok tt
  /\ holds_record st1 "reference_docs" first_chunks first_vectors 0
  /\ ~ holds_record st2 "reference_docs" first_chunks first_vectors 0.
Proof.
  intros st1 st2.
  assert (H1 : upload_documents_with_metadata "reference_docs"
                 first_chunks first_vectors one_collection = (Ok tt, st1))
    by (vm_compute; reflexivity).
  assert (H2 : upload_documents_with_metadata "reference_docs"
                 second_chunks second_vectors st1 = (Ok tt, st2))
    by (vm_compute; reflexivity).
  split; [by rewrite H1|]. split; [by rewrite H2|]. split.
  - apply (upload_spec _ _ _ _ _ H1). simpl. lia.
  - intros (c & p & Hc & Hp & Hstored).
    destruct (proj1 (upload_spec _ _ _ _ _ H2) 0%nat) as (c' & p' & Hc' & Hp' & Hstored');
      [simpl; lia|].
    rewrite Hc in Hc'. injection Hc' as <-.
    rewrite Hstored in Hstored'.
    unfold make_point in Hp, Hp'. simpl in Hp, Hp'.
    injection Hp as <-. injection Hp' as <-.
    injection Hstored' as Hvector _. discriminate Hvector.
Qed.

(** The same two uploads, as a run of the theorem at id 0. *)
Lemma second_upload_overwrites_shared_ids_witness :
  let st1 := snd (upload_documents_with_metadata "reference_docs"
                    first_chunks first_vectors one_collection) in
  let st2 := snd (upload_documents_with_metadata "reference_docs"
                    second_chunks second_vectors st1) in
  ((0 < length second_chunks)%nat ->
     holds_record st2 "reference_docs" second_chunks second_vectors 0)
  /\ ((length second_chunks <= 0 < length first_chunks)%nat ->
       holds_record st2 "reference_docs" first_chunks first_vectors 0)
  /\ ((0 < length second_chunks)%nat ->
       forall p1 p2,
         make_point first_chunks first_vectors 0 = Ok p1 ->
         make_point second_chunks second_vectors 0 = Ok p2 ->
         (vector p1, payload p1) <> (vector p2, payload p2) ->
         ~ holds_record st2 "reference_docs" first_chunks first_vectors 0).
Proof.
  intros st1 st2.
  apply (@second_upload_overwrites_shared_ids int_float "reference_docs"
           first_chunks second_chunks first_vectors second_vectors
           one_collection st1 st2).
  - vm_compute. reflexivity.
  - vm_compute. reflexivity.
Defined.

End GatewayFacts.

(** ** Generation: streamed against synchronous *)

Module GenerationFacts.
Import PyStr Generator Backend Notions.

Section WithGeneration.
Context `{GenerationService}.

(** Dropping the chunks without content, or with an empty one, loses no
    text. *)
Lemma concat_yielded (response : list stream_chunk) :
  concat (omap yielded response) = concat (omap delta_content response).
Proof.
  induction response as [|chunk response IH]; [done|].
  simpl.
  assert (Hy : yielded chunk
               = match delta_content chunk with
                 | Some [] => None
                 | other => other
                 end).
  { unfold yielded. by destruct (delta_content chunk) as [[|x c]|]. }
  rewrite Hy.
  destruct (delta_content chunk) as [[|x c]|]; simpl;
    [exact IH | do 2 f_equal; exact IH | exact IH].
Qed.

Lemma streamed_text_of_codes (before after : list event)
    (fragments : list pystr) :
  omap code_of before = [] -> omap code_of after = [] ->
  streamed_text (before ++ List.map Code fragments ++ after)
  = concat fragments.
Proof.
  intros Hb Ha. unfold streamed_text.
  rewrite !omap_app, Hb, Ha, app_nil_r. simpl. f_equal.
  induction fragments as [|f fragments IH]; [done|].
  simpl. f_equal. exact IH.
Qed.

(** C9: with a deterministic generation stub whose two modes agree, for
    every context and prompt the [code] fragments of the streamed path, put
    together in arrival order, are the text the synchronous path returns; the
    stream carries no [error] frame, and the same holds for what the
    generator itself yields. *)
Theorem streamed_code_equals_synchronous (context strict_prompt : pystr) :
  consistent_stub ->
  generate_code context strict_prompt
  = Ok (streamed_text (stream_generation_events context strict_prompt))
  /\ generate_code context strict_prompt
     = Ok (concat (fst (generate_code_stream context strict_prompt)))
  /\ forall e, Error e ∉ stream_generation_events context strict_prompt.
Proof.
  intros Hstub.
  unfold stream_generation_events, generate_code_stream, generate_code.
  set (prompt := lit "Reference:" ++ _).
  destruct (Hstub prompt) as [Hend Hfull].
  destruct (chat_completion_stream prompt) as [response failure].
  simpl in Hend, Hfull. subst failure. rewrite Hfull. simpl.
  split; [|split].
  - f_equal. rewrite <- concat_yielded.
    symmetry.
    apply (streamed_text_of_codes [Status _] [Done _]); done.
  - by rewrite concat_yielded.
  - intros e He.
    apply elem_of_cons in He as [He|He]; [done|].
    apply elem_of_app in He as [He|He].
    + apply list_elem_of_In, in_map_iff in He as (f & Hf & _). done.
    + apply list_elem_of_singleton in He. done.
Qed.

End WithGeneration.

Import Fixtures.

Lemma stub_generation_consistent : @consistent_stub stub_generation.
Proof. intros prompt. split; reflexivity. Qed.

(** The stub answers "print(1)" both ways. *)
Lemma streamed_code_equals_synchronous_witness :
  @generate_code stub_generation (lit "[Source 1]") (lit "Print one.")
  = Ok (@streamed_text
          (@stream_generation_events stub_generation
             (lit "[Source 1]") (lit "Print one.")))
  /\ @streamed_text
       (@stream_generation_events stub_generation
          (lit "[Source 1]") (lit "Print one.")) = lit "print(1)".
Proof.
  split; [|reflexivity].
  apply (@streamed_code_equals_synchronous stub_generation
           (lit "[Source 1]") (lit "Print one.")
           stub_generation_consistent).
Defined.

End GenerationFacts.

(** ** The upload pipeline *)

Module PipelineFacts.
Import PyStr DocumentProcessor Embedder QdrantUtils Backend Notions.

Ltac run := unfold bind, try_except, ret, raise, lift_result in *.

Section WithServices.
Context `{UnicodeDb} `{DocumentParsers} `{EmbeddingService}.

(** A file that yields nothing is skipped: the two global lists and the
    embedding service are left as they were. *)
Lemma process_file_skips (file : UploadFile)
    (all_chunk_objs : list chunk_obj) (all_embeddings : list vec)
    (s : service) :
  yields_nothing file ->
  process_file file all_chunk_objs all_embeddings s
  = (Ok (all_chunk_objs, all_embeddings), s).
Proof.
  intros (raw & pages & Hextract & Hnothing).
  unfold process_file. run. rewrite Hextract. simpl.
  destruct Hnothing as [-> | Hpages]; [done|].
  destruct (truthy raw); simpl; [|done].
  by rewrite Hpages.
Qed.

Lemma files_loop_skips (files : list UploadFile)
    (all_chunk_objs : list chunk_obj) (all_embeddings : list vec)
    (s : service) :
  Forall yields_nothing files ->
  files_loop files all_chunk_objs all_embeddings s
  = (Ok (all_chunk_objs, all_embeddings), s).
Proof.
  induction 1 as [|file files Hfile _ IH]; simpl; [done|].
  unfold bind. rewrite process_file_skips by done. simpl. exact IH.
Qed.

(** When every file of the run is extracted without an exception and yields
    no text or no chunk, the pipeline returns an error-status result and
    never a success, leaving the embedding service and the vector store
    untouched; for a run with at least one file the result is the "No valid
    content" error, and the run without any file is refused with "No files
    provided". *)
Theorem upload_without_content_is_error (files : list UploadFile)
    (s : service) (st : gmap string collection) :
  Forall yields_nothing files ->
  exists message,
    upload_docs files (s, st) = (Ok (UploadError message), (s, st))
    /\ status (UploadError message) = "error"%string
    /\ (files <> [] ->
         message = "No valid content found in uploaded files"%string)
    /\ (files = [] -> message = "No files provided"%string).
Proof.
  intros Hnothing. unfold upload_docs.
  destruct files as [|file files].
  - exists "No files provided"%string. simpl. by run.
  - exists "No valid content found in uploaded files"%string.
    split; [|done].
    cbn [is_empty]. unfold bind, on_fst. cbn [fst snd].
    rewrite files_loop_skips by done. by run.
Qed.

(** A successful upload replaces the collection: whatever the store held
    under the name before, afterwards the collection holds a record under
    exactly the ids below the number of chunks of this run. *)
Lemma upload_docs_replaces_collection (files : list UploadFile)
    (s s' : service) (st st' : gmap string collection)
    (chunks files_processed : Z) :
  upload_docs files (s, st)
  = (Ok (UploadSuccess chunks files_processed), (s', st')) ->
  exists c,
    st' !! COLLECTION_NAME = Some c
    /\ forall i : nat, is_Some (points c !! i) <-> Z.of_nat i < chunks.
Proof.
  unfold upload_docs.
  destruct (is_empty files); [by run|].
  unfold bind at 1. unfold on_fst at 1. cbn [fst snd].
  destruct (files_loop files [] [] s) as [[[objs embs]|e] s1]; [|done].
  cbn [fst snd].
  destruct embs as [|first_embedding embs]; [by run|].
  unfold bind at 1. unfold on_snd at 1. cbn [fst snd].
  rewrite GatewayFacts.create_collection_resets.
  unfold bind at 1. unfold on_snd at 1. cbn [fst snd].
  destruct (upload_documents_with_metadata COLLECTION_NAME objs
              (first_embedding :: embs) _) as [[[]|e] st2] eqn:Hup; [|done].
  unfold ret. intros [= <- _ _ <-].
  apply GatewayFacts.upload_spec in Hup as [Hheld Hkept].
  destruct objs as [|obj objs].
  - edestruct (Hkept 0%nat) as (c' & Hc' & _);
      [simpl; lia | apply lookup_insert_eq |].
    exists c'. split; [done|]. intros i.
    edestruct (Hkept i) as (c'' & Hc'' & Hsame);
      [simpl; lia | apply lookup_insert_eq |].
    rewrite Hc' in Hc''. injection Hc'' as <-.
    rewrite Hsame. simpl. rewrite lookup_empty. split; [by intros [? ?]|lia].
  - destruct (Hheld 0%nat ltac:(simpl; lia)) as (c' & p & Hc' & _ & _).
    exists c'. split; [done|]. intros i.
    destruct (decide (i < length (obj :: objs))%nat) as [Hlt|Hge].
    + destruct (Hheld i Hlt) as (c'' & q & Hc'' & _ & Hstored).
      rewrite Hc' in Hc''. injection Hc'' as <-.
      rewrite Hstored. simpl in Hlt. split; [simpl; lia|by eexists].
    + edestruct (Hkept i) as (c'' & Hc'' & Hsame);
        [lia | apply lookup_insert_eq |].
      rewrite Hc' in Hc''. injection Hc'' as <-.
      rewrite Hsame. simpl. rewrite lookup_empty. simpl in Hge.
      split; [by intros [? ?]|lia].
Qed.

End WithServices.

Import Fixtures.

Lemma blank_files_yield_nothing :
  Forall (@yields_nothing ascii_db text_parsers) blank_files.
Proof.
  repeat constructor.
  - exists (lit "   "), [(1, lit "   ")]. split; [reflexivity|]. by right.
  - exists [], []. split; [reflexivity|]. by left.
Qed.

(** A run on the two blank files, with an empty store. *)
Lemma upload_without_content_is_error_witness :
  exists message,
    @upload_docs ascii_db text_parsers int_float down_service
      blank_files (tt, ∅) = (Ok (UploadError message), (tt, ∅))
    /\ status (UploadError message) = "error"%string
    /\ (blank_files <> [] ->
         message = "No valid content found in uploaded files"%string)
    /\ (blank_files = [] -> message = "No files provided"%string).
Proof.
  apply (@upload_without_content_is_error ascii_db text_parsers int_float
           down_service blank_files tt ∅ blank_files_yield_nothing).
Defined.

(** C7 fails on the code: a run of one markdown file that is not UTF-8 has
    no successfully processed file, the file yielding no text, yet the
    pipeline returns no result at all, neither the "No valid content" error
    nor any other: the decoder's exception, raised outside any [try] of the
    extractor, ends the run.  The PDF and DOCX branches of the same extractor
    catch what their readers raise and return the empty text, so that the run
    of the same bytes under a PDF name gets the "No valid content" error. *)
Theorem upload_of_undecodable_file_raises :
  @extract_text_with_pages strict_parsers
    (file_bytes utf16_file) (filename utf16_file)
  = Raise UnicodeDecodeError
  /\ @upload_docs ascii_db strict_parsers int_float down_service
       [utf16_file] (tt, ∅)
     = (Raise UnicodeDecodeError, (tt, ∅))
  /\ ~ (exists response final,
          @upload_docs ascii_db strict_parsers int_float down_service
            [utf16_file] (tt, ∅)
          = (Ok response, final))
  /\ @upload_docs ascii_db strict_parsers int_float down_service
       [ {| filename := lit "notes.pdf";
            file_bytes := file_bytes utf16_file |} ] (tt, ∅)
     = (Ok (UploadError "No valid content found in uploaded files"), (tt, ∅)).
Proof.
  assert (Hrun : @upload_docs ascii_db strict_parsers int_float down_service
                   [utf16_file] (tt, ∅)
                 = (Raise UnicodeDecodeError, (tt, ∅)))
    by reflexivity.
  split; [reflexivity|]. split; [exact Hrun|]. split; [|reflexivity].
  intros (response & final & Hok). rewrite Hrun in Hok. discriminate.
Qed.

End PipelineFacts.

(** ** More on the cleaner *)

Module CleanerProps.
Import PyStr DocumentProcessor Notions CleanerFacts.

Lemma dropwhile_split {A} (p : A -> bool) (l : list A) :
  exists k, l = k ++ dropwhile p l /\ Forall (fun x => p x = true) k.
Proof.
  induction l as [|x l (k & Hl & Hk)]; simpl.
  - by exists [].
  - destruct (p x) eqn:Hx.
    + exists (x :: k). split; [simpl; by f_equal | by constructor].
    + by exists [].
Qed.

Lemma dropwhile_id {A} (p : A -> bool) (l : list A) :
  (forall x rest, l = x :: rest -> p x = false) -> dropwhile p l = l.
Proof.
  destruct l as [|x l]; [done|]. intros Hhead. simpl.
  by rewrite (Hhead x l eq_refl).
Qed.

Lemma dropwhile_nil {A} (p : A -> bool) (l : list A) :
  dropwhile p l = [] <-> Forall (fun x => p x = true) l.
Proof.
  split.
  - intros Hnil. destruct (dropwhile_split p l) as (k & Hl & Hk).
    rewrite Hnil, app_nil_r in Hl. by subst.
  - induction 1 as [|x l Hx _ IH]; simpl; [done|]. by rewrite Hx.
Qed.

(** [strip] takes a piece out of the middle: white space before, white space
    after. *)
Lemma strip_split (s : pystr) :
  exists before after,
    s = before ++ strip s ++ after
    /\ Forall (fun c => is_space c = true) before
    /\ Forall (fun c => is_space c = true) after.
Proof.
  unfold strip, rstrip, lstrip.
  destruct (dropwhile_split is_space s) as (before & Hs & Hbefore).
  destruct (dropwhile_split is_space (rev (dropwhile is_space s)))
    as (after & Hrev & Hafter).
  exists before, (rev after). split; [|split; [done|]].
  - rewrite Hs at 1. f_equal.
    rewrite <- rev_app_distr, <- Hrev. by rewrite rev_involutive.
  - apply Forall_forall. intros c Hc.
    rewrite Forall_forall in Hafter. apply Hafter.
    by apply list_elem_of_In, in_rev, list_elem_of_In.
Qed.

Lemma strip_head (s : pystr) (c : char) (rest : pystr) :
  strip s = c :: rest -> is_space c = false.
Proof.
  unfold strip, rstrip, lstrip. intros Heq.
  destruct (dropwhile is_space s) as [|x l] eqn:Hl; [done|].
  pose proof (dropwhile_head _ _ _ _ Hl) as Hx.
  destruct (dropwhile_split is_space (rev (x :: l))) as (k & Hrev & _).
  apply (f_equal (@rev _)) in Hrev.
  rewrite rev_involutive, rev_app_distr, Heq in Hrev.
  simpl in Hrev. by injection Hrev as ->.
Qed.

Lemma strip_nil (s : pystr) :
  strip s = [] <-> Forall (fun c => is_space c = true) s.
Proof.
  split.
  - intros Hnil. destruct (strip_split s) as (before & after & Hs & Hb & Ha).
    rewrite Hnil in Hs. rewrite Hs. by apply Forall_app.
  - intros Hall. unfold strip, rstrip, lstrip.
    by rewrite (proj2 (dropwhile_nil _ _) Hall).
Qed.

(** The first substitution keeps every character that is not white space,
    in place, and writes a plain space for white space. *)
Lemma sub_whitespace_in (in_run : bool) (text : pystr) (c : char) :
  In c (sub_whitespace_runs in_run text) ->
  c = 32%N \/ (In c text /\ is_space c = false).
Proof.
  revert in_run. induction text as [|x text IH]; intros in_run; simpl; [done|].
  destruct (is_space x) eqn:Hx.
  - destruct in_run; simpl.
    + intros Hc. destruct (IH _ Hc) as [->|[Hin Hs]]; [by left|right; tauto].
    + intros [<-|Hc]; [by left|].
      destruct (IH _ Hc) as [->|[Hin Hs]]; [by left|right; tauto].
  - simpl. intros [<-|Hc]; [right; tauto|].
    destruct (IH _ Hc) as [->|[Hin Hs]]; [by left|right; tauto].
Qed.

Lemma sub_whitespace_keeps (in_run : bool) (text : pystr) (c : char) :
  In c text -> is_space c = false -> In c (sub_whitespace_runs in_run text).
Proof.
  revert in_run. induction text as [|x text IH]; intros in_run; simpl; [done|].
  intros [->|Hin] Hc.
  - rewrite Hc. by left.
  - destruct (is_space x); [destruct in_run|]; simpl; auto.
Qed.

Lemma single_spaced_cons (a b : char) (l : pystr) :
  single_spaced (a :: b :: l)
  = negb (is_space a && is_space b) && single_spaced (b :: l).
Proof. reflexivity. Qed.

Lemma sub_whitespace_single_spaced (text : pystr) :
  forall in_run,
    single_spaced (sub_whitespace_runs in_run text) = true
    /\ (in_run = true ->
        forall c rest, sub_whitespace_runs in_run text = c :: rest ->
                       is_space c = false).
Proof.
  induction text as [|x text IH]; intros in_run; simpl; [done|].
  destruct (is_space x) eqn:Hx.
  - destruct in_run.
    + apply IH.
    + split; [|done].
      destruct (IH true) as [Hss Hhead].
      destruct (sub_whitespace_runs true text) as [|y l] eqn:Hl; [done|].
      rewrite single_spaced_cons, Hss.
      rewrite (Hhead eq_refl y l eq_refl). by rewrite andb_false_r.
  - split.
    + destruct (IH false) as [Hss _].
      destruct (sub_whitespace_runs false text) as [|y l] eqn:Hl; [done|].
      by rewrite single_spaced_cons, Hss, Hx.
    + intros _ c rest [= <- _]. done.
Qed.

Lemma single_spaced_app (a b : pystr) :
  single_spaced (a ++ b) = true ->
  single_spaced a = true /\ single_spaced b = true.
Proof.
  induction a as [|x a IH]; [done|].
  destruct a as [|y a].
  - destruct b as [|z b]; [done|].
    change ([x] ++ z :: b) with (x :: z :: b). rewrite single_spaced_cons.
    intros H. apply andb_prop in H. split; [done|tauto].
  - change ((x :: y :: a) ++ b) with (x :: y :: (a ++ b)).
    rewrite !single_spaced_cons.
    intros H. apply andb_prop in H as [Hxy H].
    destruct (IH H) as [Ha Hb]. split; [|done].
    by rewrite Hxy, Ha.
Qed.

Lemma filter_id {A} (p : A -> bool) (l : list A) :
  Forall (fun x => p x = true) l -> List.filter p l = l.
Proof.
  induction 1 as [|x l Hx _ IH]; simpl; [done|]. by rewrite Hx, IH.
Qed.

Section WithDb.
Context `{UnicodeDb}.

Lemma space_allowed (c : char) : is_space c = true -> is_allowed c = true.
Proof. unfold is_allowed. intros ->. by rewrite orb_true_r. Qed.

(** X1: whatever the input, the cleaned text holds only characters of the
    allow-list, its only white-space character is the plain space, and it
    neither starts nor ends with white space. *)
Theorem clean_text_shape (text : pystr) :
  (forall c, In c (clean_text text) ->
     is_allowed c = true /\ (is_space c = true -> c = 32%N))
  /\ (forall c rest, clean_text text = c :: rest -> is_space c = false)
  /\ (forall front c, clean_text text = front ++ [c] -> is_space c = false).
Proof.
  split; [|split].
  - intros c Hc.
    split; [apply (clean_text_allowed text); by apply list_elem_of_In|].
    intros Hs. unfold clean_text in Hc.
    destruct (strip_split
                (List.filter is_allowed (sub_whitespace_runs false text)))
      as (before & after & Heq & _ & _).
    assert (Hin : In c (List.filter is_allowed
                          (sub_whitespace_runs false text))).
    { rewrite Heq. apply in_or_app. right. apply in_or_app. by left. }
    apply filter_In in Hin as [Hin _].
    apply sub_whitespace_in in Hin as [->|[_ Hns]]; [done|congruence].
  - intros c rest. unfold clean_text. apply strip_head.
  - intros front c. apply clean_text_trimmed_right.
Qed.

(** X2: the cleaned text is empty exactly when the input has no character that
    is both allowed and not white space. *)
Theorem clean_text_empty_iff (text : pystr) :
  clean_text text = []
  <-> Forall (fun c => is_space c = true \/ is_allowed c = false) text.
Proof.
  unfold clean_text. rewrite strip_nil, !Forall_forall. split.
  - intros Hall c Hc.
    destruct (is_space c) eqn:Hs; [by left|]. right.
    destruct (is_allowed c) eqn:Ha; [|done].
    assert (Hin : In c (List.filter is_allowed
                          (sub_whitespace_runs false text))).
    { apply filter_In. split; [|done].
      apply sub_whitespace_keeps; [by apply list_elem_of_In|done]. }
    apply list_elem_of_In, Hall in Hin. congruence.
  - intros Hall c Hc.
    apply list_elem_of_In, filter_In in Hc as [Hin Ha].
    apply sub_whitespace_in in Hin as [->|[Hin Hs]]; [done|].
    apply list_elem_of_In, Hall in Hin. destruct Hin; congruence.
Qed.

(** X3: when the input holds only characters of the allow-list, nothing is
    dropped between two white-space runs, and the cleaned text has no two
    white-space characters in a row. *)
Theorem clean_text_single_spaced (text : pystr) :
  Forall (fun c => is_allowed c = true) text ->
  single_spaced (clean_text text) = true.
Proof.
  intros Hall. unfold clean_text.
  assert (Hkeep : List.filter is_allowed (sub_whitespace_runs false text)
                  = sub_whitespace_runs false text).
  { apply filter_id, Forall_forall. intros c Hc.
    apply list_elem_of_In, sub_whitespace_in in Hc as [->|[Hin _]]; [done|].
    rewrite Forall_forall in Hall. by apply Hall, list_elem_of_In. }
  rewrite Hkeep.
  destruct (strip_split (sub_whitespace_runs false text))
    as (before & after & Heq & _ & _).
  destruct (sub_whitespace_single_spaced text false) as [Hss _].
  rewrite Heq in Hss.
  apply single_spaced_app in Hss as [_ Hss].
  by apply single_spaced_app in Hss as [Hss _].
Qed.

Lemma sub_whitespace_id (text : pystr) :
  Forall (fun c => is_space c = true -> c = 32%N) text ->
  single_spaced text = true ->
  sub_whitespace_runs false text = text
  /\ ((forall c rest, text = c :: rest -> is_space c = false) ->
      sub_whitespace_runs true text = text).
Proof.
  induction text as [|x text IH]; [done|].
  intros Hplain Hss. inversion Hplain as [|? ? Hx Hrest]; subst.
  assert (Hss' : single_spaced text = true).
  { destruct text as [|y l]; [done|].
    rewrite single_spaced_cons in Hss. apply andb_prop in Hss. tauto. }
  destruct (IH Hrest Hss') as [IHf IHt].
  simpl. destruct (is_space x) eqn:Hsx.
  - split.
    + rewrite (Hx eq_refl). f_equal. apply IHt.
      intros c rest ->. rewrite single_spaced_cons, Hsx in Hss.
      apply andb_prop in Hss as [Hc _]. by destruct (is_space c).
    + intros Hhead. specialize (Hhead x text eq_refl). congruence.
  - split; [by rewrite IHf | intros _; by rewrite IHf].
Qed.

(** X4: a text that is already normalized is left as it is. *)
Theorem clean_text_fixed_point (text : pystr) :
  normalized text -> clean_text text = text.
Proof.
  intros (Hallowed & Hplain & Hss & Hfirst & Hlast).
  unfold clean_text.
  rewrite (proj1 (sub_whitespace_id text Hplain Hss)).
  rewrite filter_id by done.
  unfold strip, rstrip, lstrip.
  rewrite (dropwhile_id is_space text) by done.
  rewrite dropwhile_id; [apply rev_involutive|].
  intros c rest Hrev. apply (Hlast (rev rest) c).
  rewrite <- (rev_involutive text), Hrev. done.
Qed.

End WithDb.

Import Fixtures.

Lemma clean_text_single_spaced_witness :
  Forall (fun c => @is_allowed ascii_db c = true) (lit "  a   b. ")
  /\ single_spaced (@clean_text ascii_db (lit "  a   b. ")) = true.
Proof.
  assert (Hall : Forall (fun c => @is_allowed ascii_db c = true)
                        (lit "  a   b. "))
    by (repeat constructor).
  split; [exact Hall|].
  exact (@clean_text_single_spaced ascii_db (lit "  a   b. ") Hall).
Defined.

Lemma clean_text_fixed_point_witness :
  @clean_text ascii_db (lit "Auth uses JWT (HS256).")
  = lit "Auth uses JWT (HS256).".
Proof.
  apply (@clean_text_fixed_point ascii_db).
  split; [repeat constructor|].
  split; [repeat constructor; discriminate|].
  split; [reflexivity|].
  split.
  - intros c rest [= <- _]. reflexivity.
  - intros front c Heq.
    apply (f_equal (@rev _)) in Heq. rewrite rev_app_distr in Heq.
    simpl in Heq. injection Heq as <- _. reflexivity.
Defined.

End CleanerProps.

(** ** More on the chunker *)

Module ChunkerProps.
Import PyStr DocumentProcessor Notions ChunkerFacts.

Lemma total_len_rev (l : list pystr) : total_len (rev l) = total_len l.
Proof.
  induction l as [|x l IH]; [done|].
  simpl. rewrite total_len_app, IH. unfold total_len. simpl. lia.
Qed.

Lemma total_len_cons (x : pystr) (l : list pystr) :
  total_len (x :: l) = len x + total_len l.
Proof. reflexivity. Qed.

(** What the overlap loop hands back: the overlap sentences and their
    summed length. *)
Lemma overlap_loop_result (overlap : Z) (cur : list pystr) :
  overlap_loop overlap (rev cur) [] 0
  = (overlap_of overlap cur, total_len (overlap_of overlap cur)).
Proof.
  unfold overlap_of.
  destruct (overlap_loop_spec overlap (rev cur) [] 0)
    as (taken & left & _ & Heq & _ & _).
  rewrite Heq. simpl. rewrite app_nil_r, total_len_rev. done.
Qed.

Lemma split_sentences_go_nonempty (cur : pystr) (prev_end in_sep : bool)
    (text : pystr) :
  split_sentences_go cur prev_end in_sep text <> [].
Proof.
  revert cur prev_end in_sep.
  induction text as [|c text IH]; intros cur prev_end in_sep; simpl; [done|].
  destruct (is_space c); [|apply IH].
  destruct in_sep; [apply IH|]. destruct prev_end; [done|apply IH].
Qed.

(** The sentence lists of the chunks: none is empty, each is a run of
    consecutive sentences, and every sentence still to be placed is in one of
    them. *)
Lemma groups_from_runs (chunk_size overlap : Z) (sentences : list pystr) :
  forall before current_chunk current_length,
    let groups := groups_from chunk_size overlap sentences
                    current_chunk current_length in
    Forall (fun g => g <> []
                     /\ run_of g (before ++ current_chunk ++ sentences))
           groups
    /\ (forall s, In s (current_chunk ++ sentences) ->
         exists g, In g groups /\ In s g).
Proof.
  induction sentences as [|s rest IH]; intros before cur cl; simpl.
  - destruct cur as [|x cur]; simpl.
    + split; [constructor|]. intros s [].
    + split.
      * constructor; [|constructor]. split; [done|].
        exists before, []. by rewrite !app_nil_r.
      * intros s Hs. exists (x :: cur). split; [by left|].
        by rewrite app_nil_r in Hs.
  - destruct ((cl + len s >? chunk_size) && negb (is_empty cur)) eqn:Hclose.
    + rewrite overlap_loop_result.
      destruct (overlap_of_spec overlap cur) as (front & Hfront & _).
      destruct (IH (before ++ front) (overlap_of overlap cur ++ [s])
                   (total_len (overlap_of overlap cur) + len s))
        as [Hruns Hcover].
      split.
      * constructor.
        { split; [|by exists before, (s :: rest)].
          intros ->. by rewrite andb_false_r in Hclose. }
        eapply Forall_impl; [exact Hruns|]. simpl.
        intros g [Hne (a & b & Heq)]. split; [done|]. exists a, b.
        rewrite <- Heq. rewrite Hfront at 1.
        rewrite <- !app_assoc. done.
      * intros x Hx. apply in_app_or in Hx as [Hx|Hx].
        { exists cur. split; [by left|done]. }
        destruct (Hcover x) as (g & Hg & Hxg).
        { rewrite <- app_assoc. apply in_or_app. by right. }
        exists g. split; [by right|done].
    + destruct (IH before (cur ++ [s]) (cl + len s)) as [Hruns Hcover].
      split.
      * eapply Forall_impl; [exact Hruns|]. simpl.
        intros g [Hne (a & b & Heq)]. split; [done|]. exists a, b.
        rewrite <- Heq, <- !app_assoc. done.
      * intros x Hx. apply Hcover. by rewrite <- app_assoc.
Qed.

(** X5: every chunk is the space-joined run of some consecutive sentences of the
    text, and every sentence of the text is in at least one chunk. *)
Theorem chunks_are_sentence_runs (text : pystr) (chunk_size overlap : Z) :
  exists groups,
    chunk_by_sentences text chunk_size overlap
    = List.map (join (lit " ")) groups
    /\ Forall (fun g => g <> [] /\ run_of g (split_sentences text)) groups
    /\ forall s, In s (split_sentences text) ->
         exists g, In g groups /\ In s g.
Proof.
  exists (groups_from chunk_size overlap (split_sentences text) [] 0).
  split.
  - unfold chunk_by_sentences. by rewrite chunk_loop_groups.
  - exact (groups_from_runs chunk_size overlap (split_sentences text) [] [] 0).
Qed.

Lemma groups_from_bounded (chunk_size overlap : Z) (sentences : list pystr) :
  forall current_chunk,
    current_chunk = [] \/ softly_bounded chunk_size overlap current_chunk ->
    Forall (softly_bounded chunk_size overlap)
      (groups_from chunk_size overlap sentences current_chunk
                   (total_len current_chunk)).
Proof.
  induction sentences as [|s rest IH]; intros cur Hcur; simpl.
  - destruct cur as [|x cur]; simpl; [constructor|].
    destruct Hcur as [|Hcur]; [done|].
    constructor; [exact Hcur | constructor].
  - destruct ((total_len cur + len s >? chunk_size) && negb (is_empty cur))
      eqn:Hclose.
    + rewrite overlap_loop_result.
      destruct (overlap_of_spec overlap cur) as (front & _ & Hbudget & _).
      constructor.
      * destruct Hcur as [->|Hcur]; [by rewrite andb_false_r in Hclose|done].
      * replace (total_len (overlap_of overlap cur) + len s)
          with (total_len (overlap_of overlap cur ++ [s]))
          by (rewrite total_len_app; unfold total_len; simpl; lia).
        apply IH. right. right. by exists (overlap_of overlap cur), s.
    + replace (total_len cur + len s) with (total_len (cur ++ [s]))
        by (rewrite total_len_app; unfold total_len; simpl; lia).
      apply IH. right.
      apply andb_false_iff in Hclose as [Hfit|Hempty].
      * left. rewrite total_len_app. unfold total_len at 2. simpl. lia.
      * right. destruct cur; [|done]. exists [], s. split; [done|].
        unfold total_len. simpl. lia.
Qed.

(** X6: the soft size bound, on the sentences of the text.  The chunks are
    the space-joins of non-empty runs of consecutive sentences of the text,
    and for each of these runs the summed sentence length goes over the chunk
    size only when the run is an overlap seed, of summed length within the
    overlap, followed by one single sentence; the chunk itself is that many
    characters plus one space between sentences. *)
Theorem chunks_are_softly_bounded (text : pystr) (chunk_size overlap : Z) :
  exists groups,
    chunk_by_sentences text chunk_size overlap
    = List.map (join (lit " ")) groups
    /\ Forall (fun g =>
                 g <> []
                 /\ run_of g (split_sentences text)
                 /\ len (join (lit " ") g)
                    = total_len g + Z.max 0 (Z.of_nat (length g) - 1)
                 /\ (chunk_size < total_len g ->
                     exists seed s,
                       g = seed ++ [s]
                       /\ total_len seed <= Z.max 0 overlap))
              groups.
Proof.
  exists (groups_from chunk_size overlap (split_sentences text) [] 0).
  split.
  { unfold chunk_by_sentences. by rewrite chunk_loop_groups. }
  pose proof (groups_from_bounded chunk_size overlap (split_sentences text) []
                (or_introl eq_refl)) as Hbounded.
  change (total_len []) with 0 in Hbounded.
  destruct (groups_from_runs chunk_size overlap (split_sentences text)
              [] [] 0) as [Hruns _].
  cbv zeta in Hruns. simpl in Hruns.
  apply Forall_forall. intros g Hg.
  rewrite Forall_forall in Hbounded, Hruns.
  destruct (Hruns g Hg) as [Hne Hrun].
  split; [done|]. split; [done|]. split.
  { rewrite join_len. change (len (lit " ")) with 1. lia. }
  intros Hover. destruct (Hbounded g Hg) as [Hfit|Hseed]; [lia|done].
Qed.

Lemma groups_from_fitting (chunk_size overlap : Z) (sentences : list pystr) :
  forall current_chunk current_length,
    current_length + total_len sentences <= chunk_size ->
    current_chunk ++ sentences <> [] ->
    groups_from chunk_size overlap sentences current_chunk current_length
    = [current_chunk ++ sentences].
Proof.
  induction sentences as [|s rest IH]; intros cur cl Hfit Hne; simpl.
  - rewrite app_nil_r in *. by destruct cur.
  - rewrite total_len_cons in Hfit.
    pose proof (total_len_nonneg rest).
    replace (cl + len s >? chunk_size) with false by lia. simpl.
    rewrite IH; [by rewrite <- app_assoc | lia | by destruct cur].
Qed.

(** X7: a text whose sentences fit the chunk size together gives exactly one
    chunk: its sentences joined by single spaces. *)
Theorem fitting_text_is_one_chunk (text : pystr) (chunk_size overlap : Z) :
  total_len (split_sentences text) <= chunk_size ->
  chunk_by_sentences text chunk_size overlap
  = [join (lit " ") (split_sentences text)].
Proof.
  intros Hfit. unfold chunk_by_sentences.
  rewrite chunk_loop_groups, groups_from_fitting; [done|lia|].
  apply split_sentences_go_nonempty.
Qed.

Lemma fitting_text_is_one_chunk_witness :
  total_len (split_sentences (lit "Auth uses JWT with HS256.")) <= 500
  /\ chunk_by_sentences (lit "Auth uses JWT with HS256.") 500 50
     = [lit "Auth uses JWT with HS256."].
Proof.
  assert (Hfit : total_len (split_sentences (lit "Auth uses JWT with HS256."))
                 <= 500) by (vm_compute; discriminate).
  split; [exact Hfit|].
  exact (fitting_text_is_one_chunk (lit "Auth uses JWT with HS256.") 500 50 Hfit).
Defined.

Lemma visible_app (a b : pystr) : visible (a ++ b) = visible a ++ visible b.
Proof. unfold visible. apply List.filter_app. Qed.

Lemma split_sentences_go_visible (text : pystr) :
  forall cur prev_end in_sep,
    visible (concat (split_sentences_go cur prev_end in_sep text))
    = visible (rev cur ++ text).
Proof.
  induction text as [|c text IH]; intros cur prev_end in_sep; simpl.
  - by rewrite !app_nil_r.
  - destruct (is_space c) eqn:Hc.
    + assert (Hskip : forall a, visible (a ++ c :: text) = visible (a ++ text)).
      { intros a. rewrite !visible_app. f_equal.
        unfold visible. simpl. by rewrite Hc. }
      destruct in_sep; [by rewrite IH, Hskip|].
      destruct prev_end.
      * simpl. rewrite visible_app, IH, Hskip. simpl. by rewrite visible_app.
      * rewrite IH. simpl. by rewrite <- app_assoc.
    + rewrite IH. simpl. by rewrite <- app_assoc.
Qed.

Lemma split_sentences_go_marks (text : pystr) :
  forall cur prev_end in_sep,
    (prev_end = true ->
     exists c cur', cur = c :: cur' /\ is_sentence_end c = true) ->
    forall pieces last,
      split_sentences_go cur prev_end in_sep text = pieces ++ [last] ->
      Forall ends_with_mark pieces.
Proof.
  induction text as [|c text IH]; intros cur prev_end in_sep Hprev pieces last;
    simpl.
  - destruct pieces as [|p pieces]; [constructor|].
    intros [= _ Hnil]. by destruct pieces.
  - destruct (is_space c) eqn:Hc.
    + destruct in_sep; [by apply IH|].
      destruct prev_end; [|by apply IH].
      destruct pieces as [|p pieces].
      { intros [= _ Hnil]. by apply split_sentences_go_nonempty in Hnil. }
      intros [= <- Hrest]. constructor.
      * destruct (Hprev eq_refl) as (m & cur' & -> & Hm).
        exists (rev cur'), m. done.
      * eapply (IH [] false true); [done | exact Hrest].
    + apply IH. intros Hend. by exists c, cur.
Qed.

(** X8: splitting into sentences loses nothing but white space: the characters
    that are not white space are those of the text, in order; there is always
    at least one sentence, and every sentence but the last ends with one of
    the marks [. ! ?]. *)
Theorem split_sentences_keeps_text (text : pystr) :
  visible (concat (split_sentences text)) = visible text
  /\ split_sentences text <> []
  /\ forall pieces last,
       split_sentences text = pieces ++ [last] ->
       Forall ends_with_mark pieces.
Proof.
  split; [apply split_sentences_go_visible|].
  split; [apply split_sentences_go_nonempty|].
  apply split_sentences_go_marks. done.
Qed.

End ChunkerProps.

(** ** The extractor *)

Module ExtractorProps.
Import PyStr DocumentProcessor Embedder Notions.

Lemma endswith_app (s suffix : pystr) :
  endswith s suffix = true <-> exists front, s = front ++ suffix.
Proof.
  unfold endswith. rewrite bool_decide_eq_true. split.
  - intros Hdrop. exists (take (length s - length suffix) s).
    rewrite <- Hdrop at 2. by rewrite take_drop.
  - intros [front ->]. rewrite length_app.
    replace (length front + length suffix - length suffix)%nat
      with (length front) by lia.
    by rewrite drop_app_length.
Qed.

(** A name has one extension: the branches of the extractor exclude each
    other. *)
Lemma pdf_is_not_text (name : pystr) :
  endswith name (lit ".pdf") = true ->
  endswith name (lit ".txt") || endswith name (lit ".md") = false.
Proof.
  intros Hpdf. apply endswith_app in Hpdf as [front ->].
  apply orb_false_intro; apply not_true_is_false; intros Hother;
    apply endswith_app in Hother as [front' Heq];
    apply (f_equal (@rev _)) in Heq; rewrite !rev_app_distr in Heq;
    simpl in Heq; discriminate.
Qed.

Lemma docx_is_not_text_or_pdf (name : pystr) :
  endswith name (lit ".docx") = true ->
  endswith name (lit ".txt") || endswith name (lit ".md") = false
  /\ endswith name (lit ".pdf") = false.
Proof.
  intros Hdocx. apply endswith_app in Hdocx as [front ->].
  split; [apply orb_false_intro|]; apply not_true_is_false; intros Hother;
    apply endswith_app in Hother as [front' Heq];
    apply (f_equal (@rev _)) in Heq; rewrite !rev_app_distr in Heq;
    simpl in Heq; discriminate.
Qed.

Lemma pdf_loop_spec (pages : list pystr) :
  forall page_num full_text page_texts,
    pdf_loop page_num pages full_text page_texts
    = (full_text
       ++ concat (List.map line (List.map snd (number_pages page_num pages))),
       page_texts ++ number_pages page_num pages).
Proof.
  induction pages as [|page pages IH]; intros n full pts; simpl.
  - by rewrite !app_nil_r.
  - destruct (truthy page); rewrite IH; simpl; [|done].
    unfold line. by rewrite <- !app_assoc.
Qed.

Lemma number_pages_spec (pages : list pystr) :
  forall n,
    List.map snd (number_pages n pages) = List.filter truthy pages
    /\ Forall (fun kp => n <= fst kp
                        /\ pages !! Z.to_nat (fst kp - n) = Some (snd kp))
             (number_pages n pages)
    /\ chain (fun a b => fst a < fst b) (number_pages n pages).
Proof.
  induction pages as [|page pages IH]; intros n; simpl.
  - repeat split. constructor.
  - destruct (IH (n + 1)) as (Hsnd & Hall & Hchain).
    assert (Hshift : Forall (fun kp => n <= fst kp
                       /\ (page :: pages) !! Z.to_nat (fst kp - n)
                          = Some (snd kp))
                      (number_pages (n + 1) pages)).
    { eapply Forall_impl; [exact Hall|]. simpl. intros [k p] [Hk Hp].
      simpl in *. split; [lia|].
      replace (Z.to_nat (k - n)) with (S (Z.to_nat (k - (n + 1)))) by lia.
      done. }
    destruct (truthy page) eqn:Hpage; simpl.
    + split; [by rewrite Hsnd|]. split.
      * constructor; [|done]. simpl. split; [lia|].
        by replace (n - n) with 0 by lia.
      * destruct (number_pages (n + 1) pages) as [|[k p] rest] eqn:Hrest;
          [done|].
        split; [|done]. inversion Hall as [|? ? [Hk _] _]; subst.
        simpl in *. lia.
    + done.
Qed.

Section WithParsers.
Context `{DocumentParsers}.

(** X9: for a PDF that the reader parses, the extractor returns the pages that
    have text, in page order, each with its 1-based position among all pages
    of the document; and the full text is these page texts, each followed by
    a line feed. *)
Theorem pdf_pages_keep_their_numbers (file_bytes : bytes) (file_name : pystr)
    (pages : list pystr) :
  endswith file_name (lit ".pdf") = true ->
  PDF_SUPPORT = true ->
  pdf_page_texts file_bytes = Ok pages ->
  exists full_text page_texts,
    extract_text_with_pages file_bytes file_name = Ok (full_text, page_texts)
    /\ List.map snd page_texts = List.filter truthy pages
    /\ Forall (fun kp => 1 <= fst kp
                        /\ pages !! Z.to_nat (fst kp - 1) = Some (snd kp))
             page_texts
    /\ chain (fun a b => fst a < fst b) page_texts
    /\ full_text = concat (List.map line (List.map snd page_texts)).
Proof.
  intros Hpdf Hsupport Hpages. unfold extract_text_with_pages.
  rewrite (pdf_is_not_text _ Hpdf), Hpdf, Hsupport, Hpages. simpl.
  rewrite pdf_loop_spec. simpl.
  destruct (number_pages_spec pages 1) as (Hsnd & Hall & Hchain).
  by eexists _, _.
Qed.

(** One step of the DOCX loop keeps the invariant of the loop. *)
Lemma docx_step_invariant (st : docx_state) (para : pystr) (seen : pystr) :
  full_text st = concat (List.map snd (page_texts st)) ->
  List.map fst (page_texts st)
  = List.map Z.of_nat (seq 1 (length (page_texts st))) ->
  current_page st = Z.of_nat (length (page_texts st)) + 1 ->
  full_text st ++ current_page_text st = seen ->
  let st' := docx_step st para in
  full_text st' = concat (List.map snd (page_texts st'))
  /\ List.map fst (page_texts st')
     = List.map Z.of_nat (seq 1 (length (page_texts st')))
  /\ current_page st' = Z.of_nat (length (page_texts st')) + 1
  /\ full_text st' ++ current_page_text st'
     = seen ++ concat (List.map line (List.filter kept_paragraph [para])).
Proof.
  intros Hfull Hnums Hpage Hseen. unfold docx_step. simpl.
  unfold kept_paragraph.
  destruct (truthy (strip para)); simpl; [|by rewrite app_nil_r].
  destruct (word_count st + count_words para >=? 500); simpl.
  - split; [by rewrite map_app, concat_app, <- Hfull; simpl; rewrite app_nil_r|].
    split.
    { rewrite map_app, length_app, Hnums. simpl.
      rewrite Nat.add_1_r, seq_S, map_app. simpl.
      rewrite Hpage. do 3 f_equal. lia. }
    split; [rewrite length_app; simpl; lia|].
    rewrite !app_nil_r, <- Hseen. unfold line. by rewrite <- !app_assoc.
  - split; [done|]. split; [done|]. split; [done|].
    rewrite app_nil_r, <- Hseen. unfold line. by rewrite <- !app_assoc.
Qed.

(** The invariant of the DOCX loop. *)
Lemma docx_loop_invariant (paragraphs : list pystr) :
  forall st seen,
    full_text st = concat (List.map snd (page_texts st)) ->
    List.map fst (page_texts st)
    = List.map Z.of_nat (seq 1 (length (page_texts st))) ->
    current_page st = Z.of_nat (length (page_texts st)) + 1 ->
    full_text st ++ current_page_text st = seen ->
    let st' := fold_left docx_step paragraphs st in
    full_text st' = concat (List.map snd (page_texts st'))
    /\ List.map fst (page_texts st')
       = List.map Z.of_nat (seq 1 (length (page_texts st')))
    /\ current_page st' = Z.of_nat (length (page_texts st')) + 1
    /\ full_text st' ++ current_page_text st'
       = seen ++ concat (List.map line
                           (List.filter kept_paragraph paragraphs)).
Proof.
  induction paragraphs as [|para paragraphs IH];
    intros st seen Hfull Hnums Hpage Hseen; simpl.
  - by rewrite app_nil_r.
  - destruct (docx_step_invariant st para seen Hfull Hnums Hpage Hseen)
      as (H1 & H2 & H3 & H4).
    destruct (IH _ _ H1 H2 H3 H4) as (G1 & G2 & G3 & G4).
    split; [done|]. split; [done|]. split; [done|].
    rewrite G4. simpl.
    destruct (kept_paragraph para); simpl;
      by rewrite ?app_nil_r, <- ?app_assoc.
Qed.

(** X10: for a DOCX that the reader parses, no paragraph is lost: the full text
    is the paragraphs that are not blank, in order, each followed by a line
    feed; it is also the page texts put together; and the synthesized pages
    are numbered 1, 2, 3, ... without a gap. *)
Theorem docx_pages_keep_every_paragraph (file_bytes : bytes)
    (file_name : pystr) (paragraphs : list pystr) :
  endswith file_name (lit ".docx") = true ->
  DOCX_SUPPORT = true ->
  docx_paragraph_texts file_bytes = Ok paragraphs ->
  exists full_text page_texts,
    extract_text_with_pages file_bytes file_name = Ok (full_text, page_texts)
    /\ full_text
       = concat (List.map line (List.filter kept_paragraph paragraphs))
    /\ full_text = concat (List.map snd page_texts)
    /\ List.map fst page_texts
       = List.map Z.of_nat (seq 1 (length page_texts)).
Proof.
  intros Hdocx Hsupport Hparagraphs. unfold extract_text_with_pages.
  destruct (docx_is_not_text_or_pdf _ Hdocx) as [Htext Hpdf].
  rewrite Htext, Hpdf, Hdocx, Hsupport, Hparagraphs. simpl.
  edestruct (docx_loop_invariant paragraphs
               {| full_text := []; page_texts := []; current_page := 1;
                  current_page_text := []; word_count := 0 |} [])
    as (H1 & H2 & H3 & H4); try done.
  simpl in H4. unfold docx_finish.
  set (st := fold_left docx_step paragraphs _) in *.
  destruct (truthy (current_page_text st)) eqn:Hrest.
  - eexists _, _. split; [done|]. split; [done|]. split.
    + rewrite map_app, concat_app, <- H1. simpl. by rewrite app_nil_r.
    + rewrite map_app, length_app, H2. simpl.
      rewrite Nat.add_1_r, seq_S, map_app. simpl.
      rewrite H3. do 3 f_equal. lia.
  - eexists _, _. split; [done|].
    destruct (current_page_text st); [|done].
    rewrite app_nil_r in H4. done.
Qed.

(** X11: the extractor raises only on a text or markdown file that is not valid
    UTF-8, with the decoder's exception; every other input, whether of an
    unknown format, of a format whose library is missing, or unreadable by
    its parser, gives a result. *)
Theorem extractor_raises_only_on_text (file_bytes : bytes) (file_name : pystr)
    (e : exn) :
  extract_text_with_pages file_bytes file_name = Raise e
  <-> (endswith file_name (lit ".txt") || endswith file_name (lit ".md")
       = true
       /\ decode_utf8 file_bytes = Raise e).
Proof.
  unfold extract_text_with_pages.
  destruct (endswith file_name (lit ".txt") || endswith file_name (lit ".md")).
  - destruct (decode_utf8 file_bytes) as [text|e']; simpl.
    + split; [done|]. by intros [_ ?].
    + split; [by intros [= ->]|]. by intros [_ [= ->]].
  - split; [|by intros [? _]].
    destruct (endswith file_name (lit ".pdf") && PDF_SUPPORT).
    { by destruct (pdf_page_texts file_bytes). }
    destruct (endswith file_name (lit ".docx") && DOCX_SUPPORT); [|done].
    by destruct (docx_paragraph_texts file_bytes).
Qed.

End WithParsers.

Import Fixtures.

(** A PDF of three pages whose second page has no text. *)
Lemma pdf_pages_keep_their_numbers_witness :
  @extract_text_with_pages paged_parsers [x41; x00; x42] (lit "a.pdf")
  = Ok (lit "A" ++ newline ++ lit "B" ++ newline,
        [(1, lit "A"); (3, lit "B")])
  /\ exists full_text page_texts,
       @extract_text_with_pages paged_parsers [x41; x00; x42] (lit "a.pdf")
       = Ok (full_text, page_texts)
       /\ List.map snd page_texts
          = List.filter truthy [lit "A"; []; lit "B"]
       /\ Forall (fun kp => 1 <= fst kp
                           /\ [lit "A"; []; lit "B"] !! Z.to_nat (fst kp - 1)
                              = Some (snd kp))
                page_texts
       /\ chain (fun a b => fst a < fst b) page_texts
       /\ full_text = concat (List.map line (List.map snd page_texts)).
Proof.
  split; [reflexivity|].
  apply (@pdf_pages_keep_their_numbers paged_parsers
           [x41; x00; x42] (lit "a.pdf") [lit "A"; []; lit "B"]);
    reflexivity.
Defined.

(** A DOCX of three paragraphs whose second paragraph is empty. *)
Lemma docx_pages_keep_every_paragraph_witness :
  @extract_text_with_pages paged_parsers [x41; x00; x42] (lit "a.docx")
  = Ok (lit "A" ++ newline ++ lit "B" ++ newline,
        [(1, lit "A" ++ newline ++ lit "B" ++ newline)])
  /\ exists full_text page_texts,
       @extract_text_with_pages paged_parsers [x41; x00; x42] (lit "a.docx")
       = Ok (full_text, page_texts)
       /\ full_text
          = concat (List.map line
                      (List.filter kept_paragraph [lit "A"; []; lit "B"]))
       /\ full_text = concat (List.map snd page_texts)
       /\ List.map fst page_texts
          = List.map Z.of_nat (seq 1 (length page_texts)).
Proof.
  split; [reflexivity|].
  apply (@docx_pages_keep_every_paragraph paged_parsers
           [x41; x00; x42] (lit "a.docx") [lit "A"; []; lit "B"]);
    reflexivity.
Defined.

End ExtractorProps.

(** ** The legacy chunker *)

Module LegacyChunkerProps.
Import PyStr DocumentProcessor Embedder Notions EmbedderFacts.

Lemma range_from_zero_positive (stop step : Z) :
  0 < step -> 0 <= stop ->
  exists indices,
    range_from_zero stop step = Some indices
    /\ Forall (fun i => 0 <= i < stop) indices
    /\ indices
       = List.map (fun k => Z.of_nat k * step)
                  (seq 0 (Z.to_nat ((stop + step - 1) / step))).
Proof.
  intros Hstep Hstop. unfold range_from_zero.
  destruct (step =? 0) eqn:Hz; [lia|].
  destruct (step >? 0) eqn:Hp; [|lia].
  eexists. split; [done|]. split; [|done].
  apply Forall_forall. intros i Hi.
  apply list_elem_of_In, in_map_iff in Hi as (k & <- & Hk).
  apply in_seq in Hk.
  pose proof (Z.div_mod (stop + step - 1) step ltac:(lia)) as Hdm.
  pose proof (Z.mod_pos_bound (stop + step - 1) step Hstep) as Hmod.
  assert (Hq : 0 <= (stop + step - 1) / step) by (apply Z.div_pos; lia).
  assert (Hk' : Z.of_nat k + 1 <= (stop + step - 1) / step) by lia.
  nia.
Qed.

Lemma py_slice_window (s : pystr) (i size : Z) :
  0 <= i -> 0 <= size ->
  py_slice s i (i + size) = slice s i (i + size).
Proof.
  intros Hi Hsize. unfold py_slice, slice, len.
  destruct (i + size <? 0) eqn:Hneg; [lia|].
  replace (i + size - i) with size by lia.
  destruct (decide (i <= Z.of_nat (length s))) as [Hin|Hout].
  - rewrite (Z.min_l i) by lia.
    destruct (decide (i + size <= Z.of_nat (length s))) as [Hfit|Hcut].
    + rewrite (Z.min_l (i + size)) by lia. f_equal. lia.
    + rewrite (Z.min_r (i + size)) by lia.
      rewrite !firstn_all2; [done| |]; rewrite length_skipn; lia.
  - rewrite (Z.min_r i), (Z.min_r (i + size)) by lia.
    rewrite !skipn_all2 by lia. by rewrite !firstn_nil.
Qed.

Lemma slice_bounds (s : pystr) (i size : Z) :
  0 <= i < len s -> 0 < size ->
  slice s i (i + size) <> [] /\ len (slice s i (i + size)) <= size.
Proof.
  unfold slice, len. intros Hi Hsize.
  replace (i + size - i) with size by lia.
  assert (Hlen : length (firstn (Z.to_nat size) (skipn (Z.to_nat i) s))
                 = Nat.min (Z.to_nat size) (length s - Z.to_nat i)).
  { by rewrite length_firstn, length_skipn. }
  split; [|lia].
  intros Hnil. rewrite Hnil in Hlen. simpl in Hlen. lia.
Qed.

(** The windows of a string, one after the other, give the string back. *)
Lemma windows_cover (s : pystr) (size : Z) (n : nat) :
  0 < size ->
  forall a : nat,
    concat (List.map (fun i => slice s i (i + size))
              (List.map (fun k => Z.of_nat k * size) (seq a n)))
    = slice s (Z.of_nat a * size) (Z.of_nat (a + n) * size).
Proof.
  intros Hsize. induction n as [|n IH]; intros a; simpl.
  - by rewrite Nat.add_0_r, slice_empty.
  - rewrite IH.
    rewrite (slice_app s (Z.of_nat a * size) (Z.of_nat a * size + size)
                       (Z.of_nat (a + S n) * size)) by nia.
    do 2 f_equal; lia.
Qed.

Lemma chunk_text_loop_app (chunk_size overlap : Z) (paragraphs : list pystr) :
  forall chunks,
    chunk_text_loop chunk_size overlap paragraphs chunks
    = option_map (app chunks)
        (chunk_text_loop chunk_size overlap paragraphs []).
Proof.
  induction paragraphs as [|para paragraphs IH]; intros chunks; simpl.
  - by rewrite app_nil_r.
  - destruct (truthy (strip para)); simpl; [|apply IH].
    destruct (range_from_zero (len (strip para)) (chunk_size - overlap))
      as [indices|]; [|done].
    rewrite IH. rewrite (IH (List.map _ indices)).
    destruct (chunk_text_loop chunk_size overlap paragraphs []); simpl;
      [by rewrite app_assoc | done].
Qed.

(** X12: with a positive chunk size and an overlap below it, the legacy chunker
    returns, and every chunk is a non-empty string of at most [chunk_size]
    characters. *)
Theorem chunk_text_chunks_are_bounded (text : pystr) (chunk_size overlap : Z) :
  0 < chunk_size -> overlap < chunk_size ->
  exists chunks,
    chunk_text text chunk_size overlap = Some chunks
    /\ Forall (fun c => c <> [] /\ len c <= chunk_size) chunks.
Proof.
  intros Hsize Hstep. unfold chunk_text.
  induction (split_paragraphs text) as [|para paragraphs IH]; simpl.
  - by exists [].
  - destruct IH as (chunks & Hrest & Hall).
    destruct (truthy (strip para)); simpl; [|by exists chunks].
    destruct (range_from_zero_positive (len (strip para))
                (chunk_size - overlap)) as (indices & -> & Hbounds & _);
      [lia | unfold len; lia |].
    rewrite chunk_text_loop_app, Hrest. simpl.
    eexists. split; [done|]. apply Forall_app. split; [|done].
    apply Forall_forall. intros c Hc.
    apply list_elem_of_In, in_map_iff in Hc as (i & <- & Hi).
    rewrite Forall_forall in Hbounds.
    apply list_elem_of_In, Hbounds in Hi.
    rewrite py_slice_window by lia. by apply slice_bounds.
Qed.

(** X13: with a positive chunk size and no overlap, nothing is lost and nothing
    is repeated: the chunks put together are the stripped paragraphs that are
    not blank, put together. *)
Theorem chunk_text_without_overlap_keeps_text (text : pystr) (chunk_size : Z) :
  0 < chunk_size ->
  exists chunks,
    chunk_text text chunk_size 0 = Some chunks
    /\ concat chunks
       = concat (List.filter truthy
                   (List.map strip (split_paragraphs text))).
Proof.
  intros Hsize. unfold chunk_text.
  induction (split_paragraphs text) as [|para paragraphs IH]; simpl.
  - by exists [].
  - destruct IH as (chunks & Hrest & Hconcat).
    destruct (truthy (strip para)); simpl; [|by exists chunks].
    destruct (range_from_zero_positive (len (strip para)) (chunk_size - 0))
      as (indices & -> & Hbounds & Hindices);
      [lia | unfold len; lia |].
    rewrite chunk_text_loop_app, Hrest. simpl.
    eexists. split; [done|]. rewrite concat_app, Hconcat. f_equal.
    assert (Hsame : List.map (fun i => py_slice (strip para) i (i + chunk_size))
                             indices
                    = List.map (fun i => slice (strip para) i (i + chunk_size))
                               indices).
    { apply map_ext_in. intros i Hi.
      rewrite Forall_forall in Hbounds.
      apply list_elem_of_In, Hbounds in Hi. apply py_slice_window; lia. }
    rewrite Hsame, Hindices. replace (chunk_size - 0) with chunk_size by lia.
    rewrite windows_cover by done. simpl.
    apply slice_all. apply range_step_covers; [done | unfold len; lia].
Qed.

(** X14: when the overlap is not below the chunk size the legacy chunker is of no
    use: with an overlap above the chunk size it returns no chunk at all,
    whatever the text; with an overlap equal to it, it raises as soon as one
    paragraph is not blank. *)
Theorem chunk_text_needs_smaller_overlap (text : pystr)
    (chunk_size overlap : Z) :
  (chunk_size < overlap -> chunk_text text chunk_size overlap = Some [])
  /\ (chunk_size = overlap ->
      chunk_text text chunk_size overlap
      = if existsb (fun para => truthy (strip para)) (split_paragraphs text)
        then None else Some []).
Proof.
  unfold chunk_text. split; intros Hstep.
  - induction (split_paragraphs text) as [|para paragraphs IH]; simpl; [done|].
    destruct (truthy (strip para)); simpl; [|done].
    unfold range_from_zero.
    destruct (chunk_size - overlap =? 0) eqn:Hz; [lia|].
    destruct (chunk_size - overlap >? 0) eqn:Hp; [lia|]. done.
  - induction (split_paragraphs text) as [|para paragraphs IH]; simpl; [done|].
    destruct (truthy (strip para)); simpl; [|done].
    unfold range_from_zero.
    by destruct (chunk_size - overlap =? 0) eqn:Hz; [|lia].
Qed.

Lemma chunk_text_chunks_are_bounded_witness :
  0 < 4 /\ 1 < 4
  /\ chunk_text (lit "abcdefghij") 4 1
     = Some [lit "abcd"; lit "defg"; lit "ghij"; lit "j"]
  /\ exists chunks,
       chunk_text (lit "abcdefghij") 4 1 = Some chunks
       /\ Forall (fun c => c <> [] /\ len c <= 4) chunks.
Proof.
  split; [lia|]. split; [lia|]. split; [reflexivity|].
  apply (chunk_text_chunks_are_bounded (lit "abcdefghij") 4 1); lia.
Defined.

Lemma chunk_text_without_overlap_keeps_text_witness :
  0 < 4
  /\ exists chunks,
       chunk_text (lit "abcdefghij") 4 0 = Some chunks
       /\ concat chunks
          = concat (List.filter truthy
                      (List.map strip (split_paragraphs (lit "abcdefghij")))).
Proof.
  split; [lia|].
  apply (chunk_text_without_overlap_keeps_text (lit "abcdefghij") 4). lia.
Defined.

End LegacyChunkerProps.

(** ** More on the batch embedder *)

Module EmbedderProps.
Import PyStr Embedder Notions EmbedderFacts.

Section WithService.
Context `{EmbeddingService}.

(** X15: no request is sent when there is nothing to send: a batch size of zero
    raises [ZeroDivisionError] before the first batch, a negative batch size
    makes the loop empty so that the result is the empty list whatever the
    texts, and an empty list of texts gives the empty list.  The service is
    left as it was in all three cases. *)
Theorem get_embeddings_batch_without_request (texts : list pystr)
    (batch_size : Z) (s : service) :
  (batch_size = 0 ->
   get_embeddings_batch texts batch_size s = (Raise ZeroDivisionError, s))
  /\ (batch_size < 0 -> get_embeddings_batch texts batch_size s = (Ok [], s))
  /\ (batch_size <> 0 -> get_embeddings_batch [] batch_size s = (Ok [], s)).
Proof.
  unfold get_embeddings_batch, range_step. split; [|split].
  - by intros ->.
  - intros Hneg. destruct (batch_size =? 0) eqn:Hz; [lia|].
    by destruct (batch_size >? 0) eqn:Hp; [lia|].
  - intros Hnz. destruct (batch_size =? 0) eqn:Hz; [lia|].
    destruct (batch_size >? 0) eqn:Hp; [|done].
    simpl. rewrite Z.div_small by lia. done.
Qed.

(** X16: whatever the embedding service does, even against its contract, the
    batch embedder does not raise as long as the batch size is not zero. *)
Theorem get_embeddings_batch_never_raises (texts : list pystr)
    (batch_size : Z) (s : service) :
  batch_size <> 0 ->
  exists all_embeddings s',
    get_embeddings_batch texts batch_size s = (Ok all_embeddings, s').
Proof.
  intros Hnz. unfold get_embeddings_batch.
  destruct (batch_size =? 0) eqn:Hz; [lia|].
  destruct (batches_loop_total texts batch_size
              (range_step (Z.of_nat (length texts)) batch_size) s)
    as (vs & s' & Hrun).
  exists vs, s'. by rewrite Hrun.
Qed.

Section Healthy.
Variable emb : pystr -> vec.
Hypothesis healthy :
  forall input s, exists s',
    embedding_create input s = (Ok (List.map emb input), s').

Lemma batches_loop_healthy (texts : list pystr) (batch_size : Z) (n : nat) :
  0 < batch_size ->
  forall (a : nat) (s : service),
  exists s',
    forall all_embeddings,
      batches_loop texts batch_size
        (List.map (fun k => Z.of_nat k * batch_size) (seq a n))
        all_embeddings s
      = (Ok (all_embeddings
             ++ List.map emb (slice texts (Z.of_nat a * batch_size)
                                          (Z.of_nat (a + n) * batch_size))),
         s').
Proof.
  intros Hpos. induction n as [|n IH]; intros a s.
  - exists s. intros acc. simpl.
    rewrite Nat.add_0_r, slice_empty. simpl. by rewrite app_nil_r.
  - destruct (healthy (slice texts (Z.of_nat a * batch_size)
                                   (Z.of_nat a * batch_size + batch_size)) s)
      as [s1 Hbatch].
    destruct (IH (S a) s1) as [s2 Hrest].
    exists s2. intros acc. simpl.
    unfold bind at 1. unfold embed_batch, try_except, bind, ret.
    rewrite Hbatch, Hrest.
    replace (Z.of_nat (S a) * batch_size)
      with (Z.of_nat a * batch_size + batch_size) by lia.
    replace (S a + n)%nat with (a + S n)%nat by lia.
    rewrite (slice_app texts (Z.of_nat a * batch_size)
               (Z.of_nat a * batch_size + batch_size)
               (Z.of_nat (a + S n) * batch_size)) by nia.
    by rewrite map_app, <- app_assoc.
Qed.

(** X17: when no request fails, batching is invisible: for every positive batch
    size the result is the embedding of each text, in input order, with no
    placeholder. *)
Theorem get_embeddings_batch_of_healthy_service (texts : list pystr)
    (batch_size : Z) (s : service) :
  0 < batch_size ->
  exists s',
    get_embeddings_batch texts batch_size s = (Ok (List.map emb texts), s').
Proof.
  intros Hpos. unfold get_embeddings_batch, range_step.
  destruct (batch_size =? 0) eqn:Hz; [lia|].
  destruct (batch_size >? 0) eqn:Hp; [|lia].
  destruct (batches_loop_healthy texts batch_size
              (Z.to_nat ((Z.of_nat (length texts) + batch_size - 1)
                         / batch_size)) Hpos 0%nat s) as [s' Hrun].
  exists s'. rewrite Hrun. simpl.
  rewrite slice_all by (simpl; apply range_step_covers; lia). done.
Qed.

End Healthy.
End WithService.

Import Fixtures.

(** A run against the service that keeps no contract, three texts in
    batches of two.  The first batch request raises; in the fallback the
    request for "a" brings no vector, so that [data[0]] raises and the
    placeholder is taken, and the request for "bb" is answered.  The second
    batch request raises too, and the request for "c" brings no vector.  Five
    requests were sent, and the call returns. *)
Lemma get_embeddings_batch_never_raises_witness :
  @get_embeddings_batch _ erratic_service
    [lit "a"; lit "bb"; lit "c"] 2 0%nat
  = (Ok [@zero_vector int_float; [2]; @zero_vector int_float], 5%nat)
  /\ exists all_embeddings s',
       @get_embeddings_batch _ erratic_service
         [lit "a"; lit "bb"; lit "c"] 2 0%nat
       = (Ok all_embeddings, s').
Proof.
  split; [vm_compute; reflexivity|].
  apply (@get_embeddings_batch_never_raises _ erratic_service
           [lit "a"; lit "bb"; lit "c"] 2 0%nat).
  lia.
Defined.

Lemma counting_service_healthy :
  forall input s, exists s',
    @embedding_create _ counting_service input s
    = (Ok (List.map (fun t => [len t : @float int_float]) input), s').
Proof. intros input s. by exists (S s). Qed.

(** A run against the service that never fails, three texts of three
    lengths in batches of two: the result is the vector of each text at its
    place, none of them the placeholder, after two requests. *)
Lemma get_embeddings_batch_of_healthy_service_witness :
  List.map (fun t => [len t : @float int_float])
           [lit "a"; lit "bb"; lit "ccc"]
  = [[1]; [2]; [3]]
  /\ @get_embeddings_batch _ counting_service
       [lit "a"; lit "bb"; lit "ccc"] 2 0%nat
     = (Ok [[1]; [2]; [3]], 2%nat)
  /\ exists s',
       @get_embeddings_batch _ counting_service
         [lit "a"; lit "bb"; lit "ccc"] 2 0%nat
       = (Ok (List.map (fun t => [len t : @float int_float])
                       [lit "a"; lit "bb"; lit "ccc"]), s').
Proof.
  split; [reflexivity|]. split; [reflexivity|].
  apply (@get_embeddings_batch_of_healthy_service _ counting_service
           (fun t => [len t : @float int_float])
           counting_service_healthy [lit "a"; lit "bb"; lit "ccc"] 2 0%nat).
  lia.
Defined.

End EmbedderProps.

(** ** More on the vector store gateway *)

Module GatewayProps.
Import PyStr DocumentProcessor QdrantUtils Notions GatewayFacts.

Ltac run := unfold bind, try_except, ret, raise, lift_result in *.

Lemma result_list_raise {A B} (f : A -> result B) (xs : list A) (e : exn) :
  result_list f xs = Raise e -> exists x, In x xs /\ f x = Raise e.
Proof.
  induction xs as [|x xs IH]; simpl; [done|].
  destruct (f x) as [y|e'] eqn:Hx; simpl.
  - destruct (result_list f xs) as [ys|e'']; simpl; [done|].
    intros [= ->]. destruct (IH eq_refl) as (x' & Hin & Hx').
    exists x'. split; [by right|done].
  - intros [= ->]. exists x. split; [by left|done].
Qed.

Lemma result_list_ok {A B} (f : A -> result B) (xs : list A) :
  (forall x, In x xs -> exists y, f x = Ok y) ->
  exists ys, result_list f xs = Ok ys.
Proof.
  intros Hall. destruct (result_list f xs) as [ys|e] eqn:Hres; [by exists ys|].
  apply result_list_raise in Hres as (x & Hin & Hx).
  destruct (Hall x Hin) as [y Hy]. congruence.
Qed.

Lemma total_batches_positive (n : nat) :
  (0 < n)%nat ->
  exists m, ((n + upload_batch_size - 1) / upload_batch_size)%nat = S m.
Proof.
  intros Hn. unfold upload_batch_size.
  destruct ((n + 100 - 1) / 100)%nat as [|m] eqn:Hdiv; [|by exists m].
  apply Nat.div_small_iff in Hdiv; lia.
Qed.

Section WithFloat.
Context `{PyFloat}.

(** What one upsert of points that all come from one numbering function
    leaves under the id of one of them. *)
Lemma fold_upsert_numbered (f : nat -> result PointStruct)
    (batch : list PointStruct) (pts : gmap nat (vec * gmap string pyval))
    (p : PointStruct) :
  Forall (fun q => f (id q) = Ok q) batch ->
  In p batch ->
  fold_left upsert_point batch pts !! id p = Some (vector p, payload p).
Proof.
  revert p. induction batch as [|q batch IH] using rev_ind; intros p Hall Hin.
  - destruct Hin.
  - rewrite fold_left_app. simpl. unfold upsert_point at 1.
    apply Forall_app in Hall as [Hall Hq].
    inversion Hq as [|? ? Hq' _]; subst.
    destruct (decide (id q = id p)) as [Heq|Hne].
    + rewrite Heq, lookup_insert_eq.
      apply in_app_or in Hin as [Hin|[->|[]]]; [|done].
      assert (Hp : f (id p) = Ok p).
      { rewrite Forall_forall in Hall. apply Hall. by apply list_elem_of_In. }
      rewrite <- Heq, Hq' in Hp. by injection Hp as ->.
    + rewrite lookup_insert_ne by done.
      apply in_app_or in Hin as [Hin|[->|[]]]; [by apply IH | done].
Qed.

(** X18: recreating a collection never raises, whether it existed or not: the
    collection is there afterwards, empty and of the given dimension, and no
    other collection of the store is touched. *)
Theorem create_collection_wipes_only_its_own (collection_name : string)
    (size : Z) (st : gmap string collection) :
  exists st',
    create_collection collection_name size st = (Ok tt, st')
    /\ st' !! collection_name = Some {| vector_size := size; points := ∅ |}
    /\ forall other, other <> collection_name -> st' !! other = st !! other.
Proof.
  eexists. split; [apply create_collection_resets|].
  split; [apply lookup_insert_eq|].
  intros other Hother. by apply lookup_insert_ne.
Qed.

Lemma make_points_ok (chunk_objs : list chunk_obj) (embeddings : list vec)
    (xs : list nat) :
  (forall i, In i xs ->
     (i < length chunk_objs)%nat /\ (i < length embeddings)%nat) ->
  exists batch,
    result_list (make_point chunk_objs embeddings) xs = Ok batch
    /\ Forall (fun p => (id p < length chunk_objs)%nat
                        /\ embeddings !! id p = Some (vector p)) batch.
Proof.
  induction xs as [|x xs IH]; intros Hall; simpl.
  - exists []. split; [done|constructor].
  - destruct IH as (batch & Hbatch & Hvecs).
    { intros i Hi. apply Hall. by right. }
    destruct (Hall x (or_introl eq_refl)) as [Hc He].
    apply lookup_lt_is_Some in Hc as [c Hc].
    apply lookup_lt_is_Some in He as [v Hv].
    unfold make_point at 1. rewrite Hv, Hc. simpl. rewrite Hbatch. simpl.
    eexists. split; [done|]. constructor; [|done]. simpl.
    split; [|done]. by apply lookup_lt_Some in Hc.
Qed.

Lemma upload_loop_completes (collection_name : string)
    (chunk_objs : list chunk_obj) (embeddings : list vec) (size : Z)
    (m : nat) :
  (length chunk_objs <= length embeddings)%nat ->
  Forall (fun v => has_size size v = true)
         (firstn (length chunk_objs) embeddings) ->
  forall (k : nat) (st : gmap string collection) (c : collection),
    st !! collection_name = Some c -> vector_size c = size ->
    exists st',
      upload_loop collection_name chunk_objs embeddings (seq k m) st
      = (Ok tt, st').
Proof.
  intros Hlen Hsizes. induction m as [|m IH]; intros k st c Hc Hsize; simpl.
  - by exists st.
  - run.
    destruct (make_points_ok chunk_objs embeddings
                (seq (k * upload_batch_size)
                     (Nat.min ((k + 1) * upload_batch_size)
                              (length chunk_objs)
                      - k * upload_batch_size)))
      as (batch & -> & Hvecs).
    { intros i Hi. apply in_seq in Hi. lia. }
    unfold client_upsert. rewrite Hc.
    assert (Hall : forallb (fun p => has_size (vector_size c) (vector p)) batch
                   = true).
    { apply forallb_forall. intros p Hp.
      rewrite Forall_forall in Hvecs.
      destruct (Hvecs p (proj2 (list_elem_of_In _ _) Hp)) as [Hid Hv].
      rewrite Forall_forall in Hsizes. rewrite Hsize. apply Hsizes.
      apply list_elem_of_lookup. exists (id p).
      rewrite lookup_take_lt by done. done. }
    rewrite Hall.
    eapply IH; [apply lookup_insert_eq | done].
Qed.

(** X19: an upload completes whenever the collection exists, there is a vector
    for every chunk, and these vectors have the dimension of the
    collection. *)
Theorem upload_completes (collection_name : string)
    (chunk_objs : list chunk_obj) (embeddings : list vec)
    (st : gmap string collection) (c : collection) :
  st !! collection_name = Some c ->
  (length chunk_objs <= length embeddings)%nat ->
  Forall (fun v => has_size (vector_size c) v = true)
         (firstn (length chunk_objs) embeddings) ->
  exists st',
    upload_documents_with_metadata collection_name chunk_objs embeddings st
    = (Ok tt, st').
Proof.
  intros Hc Hlen Hsizes. unfold upload_documents_with_metadata.
  by eapply upload_loop_completes.
Qed.

(** X20: with fewer vectors than chunks an upload never completes: it ends in an
    exception, whatever the store holds. *)
Theorem upload_with_too_few_vectors_fails (collection_name : string)
    (chunk_objs : list chunk_obj) (embeddings : list vec)
    (st : gmap string collection) :
  (length embeddings < length chunk_objs)%nat ->
  exists e st',
    upload_documents_with_metadata collection_name chunk_objs embeddings st
    = (Raise e, st').
Proof.
  intros Hshort.
  destruct (upload_documents_with_metadata collection_name chunk_objs
              embeddings st) as [[[]|e] st'] eqn:Hup; [|by exists e, st'].
  apply upload_spec in Hup as [Hheld _].
  destruct (Hheld (length embeddings) Hshort) as (c & p & _ & Hp & _).
  unfold make_point in Hp.
  by rewrite (lookup_ge_None_2 embeddings (length embeddings)) in Hp.
Qed.

(** X21: an upload into a collection that does not exist is answered 404 on its
    first batch and writes nothing; only the upload of no chunk at all, which
    sends no request, goes through. *)
Theorem upload_into_missing_collection (collection_name : string)
    (chunk_objs : list chunk_obj) (embeddings : list vec)
    (st : gmap string collection) :
  st !! collection_name = None ->
  (chunk_objs = [] ->
   upload_documents_with_metadata collection_name chunk_objs embeddings st
   = (Ok tt, st))
  /\ (chunk_objs <> [] ->
      (Nat.min upload_batch_size (length chunk_objs) <= length embeddings)%nat ->
      upload_documents_with_metadata collection_name chunk_objs embeddings st
      = (Raise (UnexpectedResponse 404), st)).
Proof.
  intros Hmissing. split.
  - by intros ->.
  - intros Hne Hlen. unfold upload_documents_with_metadata.
    destruct (total_batches_positive (length chunk_objs)) as [m ->].
    { destruct chunk_objs; [done|simpl; lia]. }
    simpl. run.
    destruct (make_points_ok chunk_objs embeddings
                (seq 0 (Nat.min (upload_batch_size + 0) (length chunk_objs) - 0)))
      as (batch & Hbatch & _).
    { intros i Hi. apply in_seq in Hi. unfold upload_batch_size in *. lia. }
    simpl in Hbatch. rewrite Hbatch.
    unfold client_upsert. by rewrite Hmissing.
Qed.

(** X22: what comes back for a record that the upload wrote: the text, the
    source and the chunk index of its chunk, but never its page number, which
    the payload does not carry. *)
Theorem uploaded_record_loses_page_number (chunk_objs : list chunk_obj)
    (embeddings : list vec) (i : nat) (p : PointStruct) (similarity : float) :
  make_point chunk_objs embeddings i = Ok p ->
  exists c,
    chunk_objs !! i = Some c
    /\ payload p !! "page_number"%string = None
    /\ format_result {| hit_id := id p; score := similarity;
                        hit_payload := payload p |}
       = Ok {| r_text := PStr (text c);
               r_source := PStr (source (metadata_ c));
               r_chunk_index := PInt (chunk_index (metadata_ c));
               r_page_number := PNone;
               r_score := round4 similarity |}.
Proof.
  unfold make_point.
  destruct (embeddings !! i) as [v|]; [|done].
  destruct (chunk_objs !! i) as [c|]; [|done].
  intros [= <-]. exists c. split; [done|]. split; [done|].
  reflexivity.
Qed.

Section WithEngine.
Context `{!SimilarityEngine}.

(** X23: one hit whose payload has no text makes the whole search raise
    [KeyError]: no result is returned, not even those of the other hits. *)
Theorem search_needs_text_in_every_hit (collection_name : string)
    (query_embedding : vec) (top_k : Z) (st : gmap string collection)
    (c : collection) (hits : list ScoredPoint) :
  st !! collection_name = Some c ->
  has_size (vector_size c) query_embedding = true ->
  cosine_search c query_embedding top_k = Ok hits ->
  Exists (fun h => hit_payload h !! "text"%string = None) hits ->
  search_documents_with_metadata collection_name query_embedding top_k st
  = (Raise (KeyError "text"), st).
Proof.
  intros Hc Hsize Hhits Hbad.
  unfold search_documents_with_metadata. unfold bind at 1.
  rewrite collection_exists_spec, Hc.
  rewrite bool_decide_eq_true_2 by (by eexists). simpl.
  unfold client_search. run. rewrite Hc, Hsize, Hhits.
  destruct (result_list format_result hits) as [results|e] eqn:Hres.
  - apply result_list_Forall2 in Hres.
    apply Exists_exists in Hbad as (h & Hh & Hnone).
    apply list_elem_of_lookup in Hh as [j Hj].
    destruct (Forall2_lookup_l _ _ _ _ _ Hres Hj) as (r & _ & Hr).
    unfold format_result in Hr. by rewrite Hnone in Hr.
  - apply result_list_raise in Hres as (h & _ & Hh).
    unfold format_result in Hh.
    destruct (hit_payload h !! "text"%string); [done|].
    by injection Hh as <-.
Qed.

(** X24: for a collection that exists, when every hit has a text, the search
    returns one result per hit, in the order of the engine: the text of the
    hit, its score rounded, and for a missing source, chunk index or page
    number the defaults "Unknown", 0 and None. *)
Theorem search_results_mirror_hits (collection_name : string)
    (query_embedding : vec) (top_k : Z) (st : gmap string collection)
    (c : collection) (hits : list ScoredPoint) :
  st !! collection_name = Some c ->
  has_size (vector_size c) query_embedding = true ->
  cosine_search c query_embedding top_k = Ok hits ->
  Forall (fun h => is_Some (hit_payload h !! "text"%string)) hits ->
  exists results,
    search_documents_with_metadata collection_name query_embedding top_k st
    = (Ok results, st)
    /\ Forall2 (fun h r =>
                  hit_payload h !! "text"%string = Some (r_text r)
                  /\ r_score r = round4 (score h)
                  /\ r_source r
                     = default (PStr (lit "Unknown"))
                               (hit_payload h !! "source"%string)
                  /\ r_chunk_index r
                     = default (PInt 0)
                               (hit_payload h !! "chunk_index"%string)
                  /\ r_page_number r
                     = default PNone
                               (hit_payload h !! "page_number"%string))
               hits results.
Proof.
  intros Hc Hsize Hhits Htexts.
  assert (Hfmt : exists results,
             result_list format_result hits = Ok results
             /\ Forall2 (fun h r =>
                  hit_payload h !! "text"%string = Some (r_text r)
                  /\ r_score r = round4 (score h)
                  /\ r_source r
                     = default (PStr (lit "Unknown"))
                               (hit_payload h !! "source"%string)
                  /\ r_chunk_index r
                     = default (PInt 0)
                               (hit_payload h !! "chunk_index"%string)
                  /\ r_page_number r
                     = default PNone
                               (hit_payload h !! "page_number"%string))
               hits results).
  { clear Hhits. induction Htexts as [|h hits [t Ht] _ IH].
    - exists []. split; [done|constructor].
    - destruct IH as (results & Hres & Hall). simpl.
      unfold format_result at 1. rewrite Ht. simpl. rewrite Hres. simpl.
      eexists. split; [done|]. constructor; [|done]. simpl.
      unfold dict_get. repeat split; try done;
        by destruct (hit_payload h !! _). }
  destruct Hfmt as (results & Hres & Hall). exists results. split; [|done].
  unfold search_documents_with_metadata. unfold bind at 1.
  rewrite collection_exists_spec, Hc.
  rewrite bool_decide_eq_true_2 by (by eexists). simpl.
  unfold client_search. run. by rewrite Hc, Hsize, Hhits, Hres.
Qed.

End WithEngine.

(** X25: the legacy upload is all or nothing.  With fewer vectors than documents
    it raises [IndexError] before any request, and the store is as it was;
    when it completes, every document is in the collection under its index,
    with its vector and with the text as the whole payload. *)
Theorem legacy_upload_is_all_or_nothing (collection_name : string)
    (docs : list pystr) (embeddings : list vec)
    (st : gmap string collection) :
  ((length embeddings < length docs)%nat ->
   upload_documents collection_name docs embeddings st
   = (Raise IndexError, st))
  /\ (forall st',
        upload_documents collection_name docs embeddings st = (Ok tt, st') ->
        forall i d,
          docs !! i = Some d ->
          exists c v,
            st' !! collection_name = Some c
            /\ embeddings !! i = Some v
            /\ points c !! i = Some (v, <["text" := PStr d]> ∅)).
Proof.
  unfold upload_documents. run. split.
  - intros Hshort.
    destruct (result_list (make_text_point docs embeddings)
                (seq 0 (length docs))) as [batch|e] eqn:Hres.
    + apply result_list_Forall2 in Hres.
      assert (Hi : seq 0 (length docs) !! length embeddings
                   = Some (length embeddings)).
      { rewrite lookup_seq_lt by done. done. }
      destruct (Forall2_lookup_l _ _ _ _ _ Hres Hi) as (p & _ & Hp).
      unfold make_text_point in Hp.
      by rewrite (lookup_ge_None_2 embeddings (length embeddings)) in Hp.
    + apply result_list_raise in Hres as (i & _ & Hi).
      unfold make_text_point in Hi.
      destruct (embeddings !! i); [destruct (docs !! i); [done|]|];
        by injection Hi as <-.
  - intros st'.
    destruct (result_list (make_text_point docs embeddings)
                (seq 0 (length docs))) as [batch|e] eqn:Hres; [|done].
    intros Hup i d Hd.
    apply client_upsert_ok in Hup as (c0 & Hc0 & ->).
    apply result_list_Forall2 in Hres.
    assert (Hi : seq 0 (length docs) !! i = Some i).
    { rewrite lookup_seq_lt; [done|]. by apply lookup_lt_Some in Hd. }
    destruct (Forall2_lookup_l _ _ _ _ _ Hres Hi) as (p & Hp & Hmake).
    assert (Hnumbered : Forall (fun q => make_text_point docs embeddings (id q)
                                         = Ok q) batch).
    { apply Forall_forall. intros q Hq.
      apply list_elem_of_lookup in Hq as [j Hj].
      destruct (Forall2_lookup_r _ _ _ _ _ Hres Hj) as (x & _ & Hx).
      assert (Hid : id q = x).
      { unfold make_text_point in Hx.
        destruct (embeddings !! x); [destruct (docs !! x); [|done]|done].
        by injection Hx as <-. }
      by rewrite Hid. }
    unfold make_text_point in Hmake. rewrite Hd in Hmake.
    destruct (embeddings !! i) as [v|] eqn:Hv; [|done].
    injection Hmake as <-.
    eexists _, v. split; [apply lookup_insert_eq|]. split; [done|].
    simpl.
    assert (Hin : In {| id := i; vector := v;
                        payload := <["text" := PStr d]> ∅ |} batch).
    { apply list_elem_of_In, list_elem_of_lookup. by eexists. }
    exact (fold_upsert_numbered (make_text_point docs embeddings) batch
             (points c0) _ Hnumbered Hin).
Qed.

End WithFloat.

Import Fixtures.

Lemma upload_completes_witness :
  exists st',
    upload_documents_with_metadata "reference_docs" first_chunks first_vectors
      one_collection = (Ok tt, st').
Proof.
  apply (@upload_completes int_float "reference_docs" first_chunks
           first_vectors one_collection
           {| vector_size := 1; points := ∅ |}).
  - reflexivity.
  - simpl. lia.
  - repeat constructor.
Defined.

Lemma upload_with_too_few_vectors_fails_witness :
  exists e st',
    upload_documents_with_metadata "reference_docs" first_chunks []
      one_collection = (Raise e, st').
Proof.
  apply (@upload_with_too_few_vectors_fails int_float "reference_docs"
           first_chunks [] one_collection).
  simpl. lia.
Defined.

Lemma upload_into_missing_collection_witness :
  upload_documents_with_metadata "reference_docs" first_chunks first_vectors
    (∅ : gmap string (@collection int_float))
  = (Raise (UnexpectedResponse 404), ∅).
Proof.
  apply (@upload_into_missing_collection int_float "reference_docs"
           first_chunks first_vectors ∅).
  - reflexivity.
  - discriminate.
  - simpl. lia.
Defined.

Lemma uploaded_record_loses_page_number_witness :
  exists c,
    first_chunks !! 0%nat = Some c
    /\ page_number (metadata_ c) = Some 1
    /\ exists p,
         make_point first_chunks first_vectors 0 = Ok p
         /\ payload p !! "page_number"%string = None.
Proof.
  destruct (@uploaded_record_loses_page_number int_float first_chunks
              first_vectors 0%nat
              {| id := 0; vector := [1 : @float int_float];
                 payload :=
                   <["text" := PStr (lit "Auth uses JWT.")]>
                   (<["source" := PStr (lit "auth.md")]>
                   (<["chunk_index" := PInt 0]>
                   (<["length" := PInt 14]> ∅))) |}
              (1 : @float int_float) eq_refl)
    as (c & Hc & Hnone & _).
  exists c. split; [exact Hc|]. split.
  - injection Hc as <-. reflexivity.
  - eexists. split; [reflexivity | exact Hnone].
Defined.

Lemma search_needs_text_in_every_hit_witness :
  @search_documents_with_metadata int_float id_order_engine
    "reference_docs" [1] 5 {[ "reference_docs"%string := bare_collection ]}
  = (Raise (KeyError "text"),
     {[ "reference_docs"%string := bare_collection ]}).
Proof.
  apply (@search_needs_text_in_every_hit int_float id_order_engine
           "reference_docs" [1] 5
           {[ "reference_docs"%string := bare_collection ]}
           bare_collection [bare_hit]).
  - reflexivity.
  - reflexivity.
  - vm_compute. reflexivity.
  - constructor. reflexivity.
Defined.

Lemma search_results_mirror_hits_witness :
  exists results,
    @search_documents_with_metadata int_float id_order_engine
      "reference_docs" [1] 5 {[ "reference_docs"%string := text_collection ]}
    = (Ok results, {[ "reference_docs"%string := text_collection ]})
    /\ Forall2 (fun h r =>
                  hit_payload h !! "text"%string = Some (r_text r)
                  /\ r_score r = round4 (score h)
                  /\ r_source r
                     = default (PStr (lit "Unknown"))
                               (hit_payload h !! "source"%string)
                  /\ r_chunk_index r
                     = default (PInt 0)
                               (hit_payload h !! "chunk_index"%string)
                  /\ r_page_number r
                     = default PNone
                               (hit_payload h !! "page_number"%string))
               [text_hit] results.
Proof.
  apply (@search_results_mirror_hits int_float id_order_engine
           "reference_docs" [1] 5
           {[ "reference_docs"%string := text_collection ]}
           text_collection [text_hit]).
  - reflexivity.
  - reflexivity.
  - vm_compute. reflexivity.
  - constructor; [|constructor]. eexists. reflexivity.
Defined.

End GatewayProps.

(** ** More on generation *)

Module GenerationProps.
Import PyStr Generator Backend Notions.

Section WithGeneration.
Context `{GenerationService}.

Lemma yielded_not_empty (response : list stream_chunk) :
  Forall (fun f => f <> []) (omap yielded response).
Proof.
  induction response as [|chunk response IH]; simpl; [constructor|].
  unfold yielded at 1.
  destruct (delta_content chunk) as [[|x c]|]; simpl; try done.
  by constructor.
Qed.

(** X26: the stream of the generation step has exactly one terminal frame, its
    last: [done] when the service ran to its end, [error] with the exception
    when it broke off.  The fragments received before are all delivered, in
    order, in front of it, and none of them is the empty string. *)
Theorem stream_ends_with_one_terminal_frame (context query : pystr) :
  exists front last,
    stream_generation_events context query = front ++ [last]
    /\ Forall (fun ev => terminal ev = false) front
    /\ omap code_of front = fst (generate_code_stream context query)
    /\ Forall (fun f => f <> []) (fst (generate_code_stream context query))
    /\ match snd (generate_code_stream context query) with
       | None => exists message, last = Done message
       | Some e => last = Error e
       end.
Proof.
  assert (Hgen : Forall (fun f => f <> [])
                        (fst (generate_code_stream context query))).
  { unfold generate_code_stream.
    destruct (chat_completion_stream _) as [response failure]. simpl.
    apply yielded_not_empty. }
  revert Hgen. unfold stream_generation_events.
  destruct (generate_code_stream context query) as [fragments failure].
  intros Hgen.
  exists (Status (lit "Generating code with GPT-4...")
          :: List.map Code fragments),
         (match failure with
          | None => Done (lit "Code generation completed!")
          | Some e => Error e
          end).
  split; [by destruct failure|]. split; [|split; [|split; [done|]]].
  - constructor; [done|]. apply Forall_forall. intros ev Hev.
    apply list_elem_of_In, in_map_iff in Hev as (f & <- & _). done.
  - simpl. clear Hgen. induction fragments as [|f fragments IH]; [done|].
    simpl. f_equal. exact IH.
  - destruct failure; [done|by eexists].
Qed.

End WithGeneration.
End GenerationProps.

(** ** More on the upload pipeline *)

Module PipelineProps.
Import PyStr DocumentProcessor Embedder QdrantUtils Backend Notions.
Import ChunkerFacts ChunkerProps EmbedderFacts GatewayFacts PipelineFacts.

Ltac run := unfold bind, try_except, ret, raise, lift_result in *.

Lemma chunk_by_sentences_not_empty (text : pystr) (chunk_size overlap : Z) :
  chunk_by_sentences text chunk_size overlap <> [].
Proof.
  unfold chunk_by_sentences. rewrite chunk_loop_groups. simpl.
  destruct (groups_from_runs chunk_size overlap (split_sentences text) [] [] 0)
    as [_ Hcover].
  destruct (split_sentences text) as [|s rest] eqn:Hsplit.
  { by apply split_sentences_go_nonempty in Hsplit. }
  destruct (Hcover s (or_introl eq_refl)) as (g & Hg & _).
  intros Hnil. apply map_eq_nil in Hnil. rewrite Hnil in Hg. done.
Qed.

Section WithDb.
Context `{UnicodeDb}.

Lemma pages_loop_acc (page_texts : list (Z * pystr)) :
  forall page_chunks,
    pages_loop page_texts page_chunks
    = page_chunks ++ pages_loop page_texts [].
Proof.
  induction page_texts as [|[n t] page_texts IH]; intros acc; simpl.
  - by rewrite app_nil_r.
  - destruct (truthy (clean_text t)); simpl; [|apply IH].
    rewrite IH, (IH (List.map _ _)). by rewrite app_assoc.
Qed.

(** X27: the pages of a file give no chunk exactly when every page is empty once
    cleaned; one page with something left gives at least one chunk. *)
Theorem pages_give_chunks_unless_all_blank (page_texts : list (Z * pystr)) :
  pages_loop page_texts [] = []
  <-> Forall (fun page => clean_text (snd page) = []) page_texts.
Proof.
  induction page_texts as [|[n t] page_texts IH]; simpl.
  - split; [constructor|done].
  - destruct (clean_text t) as [|x cleaned] eqn:Hclean; simpl.
    + rewrite IH. split; [by constructor|].
      by inversion 1.
    + rewrite pages_loop_acc. split.
      * intros Hnil. apply app_eq_nil in Hnil as [Hnil _].
        apply map_eq_nil in Hnil.
        by apply chunk_by_sentences_not_empty in Hnil.
      * inversion 1 as [|? ? Hhead _]; subst. simpl in Hhead. congruence.
Qed.

End WithDb.

Section WithServices.
Context `{UnicodeDb} `{DocumentParsers} `{EmbeddingService}.

Lemma files_loop_app (files1 files2 : list UploadFile) :
  forall all_chunk_objs all_embeddings s,
    files_loop (files1 ++ files2) all_chunk_objs all_embeddings s
    = bind (files_loop files1 all_chunk_objs all_embeddings)
           (fun acc => files_loop files2 (fst acc) (snd acc)) s.
Proof.
  induction files1 as [|file files1 IH]; intros objs embs s; simpl.
  - by run.
  - unfold bind in *.
    destruct (process_file file objs embs s) as [[acc|e] s1]; [apply IH|done].
Qed.

(** Whatever the embedding service does, a file whose extraction returns is
    processed without an exception, and the chunk list is not left empty
    when the vector list is not. *)
Lemma process_file_total (file : UploadFile)
    (all_chunk_objs : list chunk_obj) (all_embeddings : list vec)
    (s : service) (extracted : pystr * list (Z * pystr)) :
  extract_text_with_pages (file_bytes file) (filename file) = Ok extracted ->
  (all_embeddings <> [] -> all_chunk_objs <> []) ->
  exists objs embs s',
    process_file file all_chunk_objs all_embeddings s = (Ok (objs, embs), s')
    /\ (embs <> [] -> objs <> []).
Proof.
  intros Hextract Hinv. unfold process_file. run. rewrite Hextract.
  destruct (truthy (fst extracted)); simpl; [|by eexists _, _, _].
  destruct (pages_loop (snd extracted) []) as [|pc page_chunks] eqn:Hpages;
    simpl; [by eexists _, _, _|].
  unfold get_embeddings_batch. simpl.
  destruct (batches_loop_total (List.map snd (pc :: page_chunks)) 100
              (range_step (Z.of_nat (length (List.map snd (pc :: page_chunks))))
                          100) s) as (vs & s' & Hrun).
  simpl in Hrun. rewrite Hrun. simpl.
  eexists _, _, _. split; [done|].
  intros _. destruct pc as [n c]. simpl. by destruct all_chunk_objs.
Qed.

Lemma files_loop_total (files : list UploadFile) :
  forall all_chunk_objs all_embeddings s,
    Forall (fun file => exists extracted,
              extract_text_with_pages (file_bytes file) (filename file)
              = Ok extracted) files ->
    (all_embeddings <> [] -> all_chunk_objs <> []) ->
    exists objs embs s',
      files_loop files all_chunk_objs all_embeddings s = (Ok (objs, embs), s')
      /\ (embs <> [] -> objs <> []).
Proof.
  induction files as [|file files IH]; intros objs embs s Hall Hinv; simpl.
  - by eexists _, _, _.
  - inversion Hall as [|? ? [extracted Hextract] Hrest]; subst.
    destruct (process_file_total file objs embs s extracted Hextract Hinv)
      as (objs1 & embs1 & s1 & Hfile & Hinv1).
    unfold bind. rewrite Hfile. simpl. by apply IH.
Qed.

(** The pipeline after its guard, step by step. *)
Lemma upload_docs_steps (files : list UploadFile) (s : service)
    (st : gmap string collection) :
  files <> [] ->
  upload_docs files (s, st)
  = match files_loop files [] [] s with
    | (Raise e, s1) => (Raise e, (s1, st))
    | (Ok (objs, []), s1) =>
        (Ok (UploadError "No valid content found in uploaded files"), (s1, st))
    | (Ok (objs, v :: embs), s1) =>
        match create_collection COLLECTION_NAME (Z.of_nat (length v)) st with
        | (Raise e, st1) => (Raise e, (s1, st1))
        | (Ok _, st1) =>
            match upload_documents_with_metadata COLLECTION_NAME objs
                    (v :: embs) st1 with
            | (Raise e, st2) => (Raise e, (s1, st2))
            | (Ok _, st2) =>
                (Ok (UploadSuccess (Z.of_nat (length objs))
                                   (Z.of_nat (length files))), (s1, st2))
            end
        end
    end.
Proof.
  intros Hne. unfold upload_docs.
  destruct files as [|file files]; [done|]. cbn [is_empty].
  unfold bind, on_fst, on_snd, ret. cbn [fst snd].
  destruct (files_loop (file :: files) [] [] s) as [[[objs embs]|e] s1];
    [|done].
  cbn [fst snd]. destruct embs as [|v embs]; [done|]. cbn [fst snd].
  destruct (create_collection COLLECTION_NAME _ st) as [[[]|e] st1];
    cbn [fst snd]; [|done].
  by destruct (upload_documents_with_metadata COLLECTION_NAME objs _ st1)
    as [[[]|e] st2].
Qed.

(** X28: a text file that cannot be decoded is not skipped: the whole upload
    ends with the decoder's exception, even after files that were processed
    well, and nothing is written to the vector store. *)
Theorem undecodable_file_aborts_upload (before after : list UploadFile)
    (file : UploadFile) (e : exn) (s : service)
    (st : gmap string collection) :
  Forall (fun f => exists extracted,
            extract_text_with_pages (file_bytes f) (filename f)
            = Ok extracted) before ->
  extract_text_with_pages (file_bytes file) (filename file) = Raise e ->
  exists s',
    upload_docs (before ++ file :: after) (s, st) = (Raise e, (s', st)).
Proof.
  intros Hbefore Hfile.
  destruct (files_loop_total before [] [] s Hbefore ltac:(done))
    as (objs & embs & s1 & Hloop & _).
  exists s1. rewrite upload_docs_steps by (by destruct before).
  rewrite files_loop_app. unfold bind at 1. rewrite Hloop. simpl.
  unfold bind at 1. unfold process_file. run. by rewrite Hfile.
Qed.


(** X30: what a success reports: the count of files is that of all the files
    submitted, skipped ones included; the chunk count is positive, and the
    collection holds a record under exactly the ids below it, whatever it
    held before. *)
Theorem upload_success_counts (files : list UploadFile)
    (s s' : service) (st st' : gmap string collection)
    (chunks files_processed : Z) :
  upload_docs files (s, st)
  = (Ok (UploadSuccess chunks files_processed), (s', st')) ->
  files_processed = Z.of_nat (length files)
  /\ 0 < chunks
  /\ exists c,
       st' !! COLLECTION_NAME = Some c
       /\ forall i : nat, is_Some (points c !! i) <-> Z.of_nat i < chunks.
Proof.
  intros Hup. split; [|split].
  - destruct files as [|file files]; [by revert Hup; unfold upload_docs; run|].
    rewrite upload_docs_steps in Hup by done.
    destruct (files_loop (file :: files) [] [] s) as [[[objs embs]|e] s1];
      [|done].
    destruct embs as [|v embs]; [done|].
    destruct (create_collection _ _ st) as [[[]|e] st1]; [|done].
    destruct (upload_documents_with_metadata _ _ _ st1) as [[[]|e] st2];
      [|done].
    by injection Hup as _ <- _ _.
  - destruct files as [|file files]; [by revert Hup; unfold upload_docs; run|].
    rewrite upload_docs_steps in Hup by done.
    destruct (files_loop (file :: files) [] [] s) as [[[objs embs]|e] s1]
      eqn:Hloop; [|done].
    destruct embs as [|v embs]; [done|].
    destruct (create_collection _ _ st) as [[[]|e] st1]; [|done].
    destruct (upload_documents_with_metadata _ _ _ st1) as [[[]|e] st2];
      [|done].
    injection Hup as <- _ _ _.
    assert (Hobjs : objs <> []).
    { assert (Hgen : forall fs o em s0 o' em' s0',
                files_loop fs o em s0 = (Ok (o', em'), s0') ->
                (em <> [] -> o <> []) -> em' <> [] -> o' <> []).
      { clear. induction fs as [|f fs IH]; intros o em s0 o' em' s0'; simpl.
        - unfold ret. intros [= <- <- _]. auto.
        - unfold bind.
          destruct (process_file f o em s0) as [[[o1 em1]|e] s1] eqn:Hf;
            [|done].
          simpl. intros Hrest Hinv. eapply IH; [exact Hrest|].
          revert Hf. unfold process_file. run.
          destruct (extract_text_with_pages _ _) as [ex|e]; [|done].
          destruct (truthy (fst ex)); simpl; [|by intros [= <- <- _]].
          destruct (pages_loop (snd ex) []) as [|[n c] pcs]; simpl;
            [by intros [= <- <- _]|].
          destruct (get_embeddings_batch _ 100 s0) as [[fe|e] s2]; [|done].
          intros [= <- <- _] _. by destruct o. }
      eapply Hgen; [exact Hloop|done|done]. }
    destruct objs; [done|simpl; lia].
  - exact (upload_docs_replaces_collection _ _ _ _ _ _ _ Hup).
Qed.

End WithServices.

Import Fixtures.

Lemma undecodable_file_aborts_upload_witness :
  exists s',
    @upload_docs ascii_db
      {| decode_utf8 := fun _ => Raise UnicodeDecodeError;
         PDF_SUPPORT := false;
         pdf_page_texts := fun _ => Ok [];
         DOCX_SUPPORT := false;
         docx_paragraph_texts := fun _ => Ok [] |}
      int_float down_service
      ([] ++ auth_file :: blank_files) (tt, ∅)
    = (Raise UnicodeDecodeError, (s', ∅)).
Proof.
  apply (@undecodable_file_aborts_upload ascii_db _ int_float down_service
           [] blank_files auth_file UnicodeDecodeError tt ∅).
  - constructor.
  - reflexivity.
Defined.


Lemma upload_success_counts_witness :
  fst (@upload_docs ascii_db text_parsers int_float zeros_service
         [auth_file] (tt, ∅)) = Ok (UploadSuccess 1 1)
  /\ 1 = Z.of_nat (length [auth_file])
  /\ 0 < 1
  /\ exists c,
       snd (snd (@upload_docs ascii_db text_parsers int_float zeros_service
                   [auth_file] (tt, ∅))) !! COLLECTION_NAME = Some c
       /\ forall i : nat, is_Some (points c !! i) <-> Z.of_nat i < 1.
Proof.
  split; [vm_compute; reflexivity|].
  apply (@upload_success_counts ascii_db text_parsers int_float zeros_service
           [auth_file] tt tt ∅
           (snd (snd (@upload_docs ascii_db text_parsers int_float
                        zeros_service [auth_file] (tt, ∅)))) 1 1).
  vm_compute. reflexivity.
Defined.

End PipelineProps.
